(** * animals-monitor: the motion detector and the event store

    A shallow embedding of [src/camera/object_detector.py] (class
    [ObjectDetector]), [src/utils/storage.py] (class [ImageStorage]) and
    the detection and save steps of the loop of [main.py], with the
    properties of the components stated and proved over it.

    Conventions.
    - Python [int] is [Z]; 8-bit pixels are [Z] in [0, 255]; the float32
      background model holds rationals [Q] (every float is one), and the
      rounding of float32 arithmetic is the operator [fl32] of the OpenCV
      interface below.
    - [datetime] is a record of its seven fields; a [timedelta] is its total
      number of microseconds.
    - a [str] is held as the bytes of its UTF-8 form; which characters
      beyond ASCII are decimal digits is the operator [nd_digit] of the
      interface [Unicode].
    - numpy arrays are objects: frames live in a store [gmap loc frame] and
      are passed by reference, so that drawing on an array is visible
      through every alias of it.
    - the [cv2] functions whose result the source does not determine
      (colour conversion, blur, contour extraction, drawing) are the fields
      of the class [OpenCV]; those with a simple documented pixel-wise
      meaning ([convertScaleAbs], [absdiff], [threshold], [dilate],
      [accumulateWeighted]) are written out. *)

From Stdlib Require Import ZArith QArith Qround Qabs Ascii Lia Lqa.
From stdpp Require Import base option list gmap strings.

Local Open Scope Z_scope.

(** ** Calendar arithmetic ([datetime]) *)

Module DateTime.

Record datetime := mkDatetime {
  year : Z; month : Z; day : Z;
  hour : Z; minute : Z; second : Z; microsecond : Z
}.

(** [_is_leap], [_days_before_year], [_days_in_month], [_days_before_month]
    and [_ymd2ord] of CPython's [datetime]. *)
Definition is_leap (y : Z) : bool :=
  (y mod 4 =? 0) && (negb (y mod 100 =? 0) || (y mod 400 =? 0)).

Definition days_before_year (y : Z) : Z :=
  let y' := y - 1 in y' * 365 + y' / 4 - y' / 100 + y' / 400.

Definition days_in_month (y m : Z) : Z :=
  if (m =? 2) && is_leap y then 29
  else nth (Z.to_nat m) [0; 31; 28; 31; 30; 31; 30; 31; 31; 30; 31; 30; 31] 0.

Definition days_before_month (y m : Z) : Z :=
  nth (Z.to_nat m) [0; 0; 31; 59; 90; 120; 151; 181; 212; 243; 273; 304; 334] 0
  + (if (2 <? m) && is_leap y then 1 else 0).

Definition ymd2ord (y m d : Z) : Z :=
  days_before_year y + days_before_month y m + d.

Definition toordinal (t : datetime) : Z := ymd2ord (year t) (month t) (day t).

(** The range checks of the [datetime] constructor. *)
Definition valid_date (y m d : Z) : bool :=
  (1 <=? y) && (y <=? 9999) && (1 <=? m) && (m <=? 12)
  && (1 <=? d) && (d <=? days_in_month y m).

Definition valid_time (t : datetime) : bool :=
  (0 <=? hour t) && (hour t <? 24) && (0 <=? minute t) && (minute t <? 60)
  && (0 <=? second t) && (second t <? 60)
  && (0 <=? microsecond t) && (microsecond t <? 1000000).

(** [t1 - t2]: a [timedelta], held as its total number of microseconds. *)
Definition us_per_day : Z := 86400 * 1000000.

Definition seconds_of_day (t : datetime) : Z :=
  second t + minute t * 60 + hour t * 3600.

Definition sub (t1 t2 : datetime) : Z :=
  ((toordinal t1 - toordinal t2) * 86400
   + (seconds_of_day t1 - seconds_of_day t2)) * 1000000
  + (microsecond t1 - microsecond t2).

(** [timedelta.days]: the normalised day count (floor division). *)
Definition days (delta : Z) : Z := delta / us_per_day.

(** [delta.total_seconds() < n] for an integer [n] of seconds: the quotient
    is the correctly rounded [delta / 10**6], and [n] is an exact float, so
    the comparison is the one of the exact numbers. *)
Definition total_seconds_lt (delta n : Z) : bool := delta <? n * 1000000.

(** *** Formatting *)

Definition digit_char (n : Z) : ascii := ascii_of_nat (48 + Z.to_nat (n mod 10)).

(** [n] in decimal, zero-padded (and cut) to [w] digits. *)
Fixpoint zpad (w : nat) (n : Z) : string :=
  match w with
  | O => ""
  | S w' => zpad w' (n / 10) +:+ String (digit_char n) ""
  end.

(** [strftime("%Y-%m-%d")] *)
Definition strftime_date (t : datetime) : string :=
  zpad 4 (year t) +:+ "-" +:+ zpad 2 (month t) +:+ "-" +:+ zpad 2 (day t).

(** [strftime("%H-%M-%S")] *)
Definition strftime_hms_dash (t : datetime) : string :=
  zpad 2 (hour t) +:+ "-" +:+ zpad 2 (minute t) +:+ "-" +:+ zpad 2 (second t).

(** [strftime("%Y%m%d_%H%M%S_%f")] *)
Definition strftime_id (t : datetime) : string :=
  zpad 4 (year t) +:+ zpad 2 (month t) +:+ zpad 2 (day t) +:+ "_"
  +:+ zpad 2 (hour t) +:+ zpad 2 (minute t) +:+ zpad 2 (second t) +:+ "_"
  +:+ zpad 6 (microsecond t).

(** [strftime("%Y-%m-%d %H:%M:%S")] *)
Definition strftime_label (t : datetime) : string :=
  strftime_date t +:+ " "
  +:+ zpad 2 (hour t) +:+ ":" +:+ zpad 2 (minute t) +:+ ":" +:+ zpad 2 (second t).

(** [isoformat()]: the fraction is printed only when it is not zero. *)
Definition isoformat (t : datetime) : string :=
  strftime_date t +:+ "T"
  +:+ zpad 2 (hour t) +:+ ":" +:+ zpad 2 (minute t) +:+ ":" +:+ zpad 2 (second t)
  +:+ (if microsecond t =? 0 then "" else "." +:+ zpad 6 (microsecond t)).

(** The shape of an ISO-8601 date and time of day,
    [YYYY-MM-DDTHH:MM:SS] with an optional fraction [.ffffff]. In a
    pattern, [None] stands for a digit and [Some c] for the character
    [c]. *)
Definition is_digit (c : ascii) : bool :=
  let n := nat_of_ascii c in Nat.leb 48 n && Nat.leb n 57.

Fixpoint strip (pattern : list (option ascii)) (s : string) : option string :=
  match pattern, s with
  | [], _ => Some s
  | _ :: _, EmptyString => None
  | None :: pattern', String c rest =>
      if is_digit c then strip pattern' rest else None
  | Some c' :: pattern', String c rest =>
      if Ascii.eqb c c' then strip pattern' rest else None
  end.

Definition iso8601 (s : string) : bool :=
  let D := @None ascii in
  let C (c : ascii) := Some c in
  match strip [D; D; D; D; C "-"; D; D; C "-"; D; D; C "T";
               D; D; C ":"; D; D; C ":"; D; D]%char s with
  | Some EmptyString => true
  | Some rest =>
      match strip [C "."; D; D; D; D; D; D]%char rest with
      | Some EmptyString => true
      | _ => false
      end
  | None => false
  end.

(** *** Parsing: [datetime.strptime(name, "%Y-%m-%d")]

    CPython turns the format into the regular expression
    [(\d\d\d\d)-(1[0-2]|0[1-9]|[1-9])-(3[0-1]|[1-2]\d|0[1-9]|[1-9]| [1-9])],
    matches it at the start of the string, and raises [ValueError] when the
    match fails, when text remains after it, or when the numbers are not a
    date. A name is held as the bytes of its UTF-8 form. [\d] matches a
    decimal digit of any script (the category Nd of the Unicode database of
    the interpreter), and [int] reads it as its value; the classes
    [[0-2]], [[1-9]] and the like match ASCII digits only. *)

(** The decimal digits beyond ASCII: the value of the digit whose UTF-8
    form starts the string, and what follows it. Which characters are
    digits depends on the version of the interpreter. *)
Class Unicode := {
  nd_digit : string → option (Z * string)
}.

Definition digit_val (c : ascii) : option Z :=
  let n := Z.of_nat (nat_of_ascii c) in
  if (48 <=? n) && (n <=? 57) then Some (n - 48) else None.

(** [\d] *)
Definition any_digit `{ud : Unicode} (s : string) : option (Z * string) :=
  match s with
  | EmptyString => None
  | String c rest =>
      if Nat.ltb (nat_of_ascii c) 128
      then match digit_val c with
           | Some v => Some (v, rest)
           | None => None
           end
      else nd_digit s
  end.

Definition digit_in (lo hi : Z) (c : ascii) : option Z :=
  match digit_val c with
  | Some v => if (lo <=? v) && (v <=? hi) then Some v else None
  | None => None
  end.

(** [(\d\d\d\d)] and [int] of it *)
Definition parse_year `{ud : Unicode} (s : string) : option (Z * string) :=
  match any_digit s with
  | Some (a, s1) =>
      match any_digit s1 with
      | Some (b, s2) =>
          match any_digit s2 with
          | Some (c, s3) =>
              match any_digit s3 with
              | Some (d, rest) => Some (1000 * a + 100 * b + 10 * c + d, rest)
              | None => None
              end
          | None => None
          end
      | None => None
      end
  | None => None
  end.

Definition expect_dash (s : string) : option string :=
  match s with
  | String c rest => if Ascii.eqb c "-"%char then Some rest else None
  | EmptyString => None
  end.

(** One alternative [[l1-h1][l2-h2]] of two digits, and one of a single
    digit; each yields at most one way to go on. *)
Definition two_digits (l1 h1 l2 h2 : Z) (s : string) : list (Z * string) :=
  match s with
  | String a (String b rest) =>
      match digit_in l1 h1 a, digit_in l2 h2 b with
      | Some a, Some b => [(10 * a + b, rest)]
      | _, _ => []
      end
  | _ => []
  end.

(** The alternative [[lo-hi]\d] *)
Definition digit_then_any `{ud : Unicode} (lo hi : Z) (s : string) : list (Z * string) :=
  match s with
  | String a rest =>
      match digit_in lo hi a, any_digit rest with
      | Some a, Some (b, rest') => [(10 * a + b, rest')]
      | _, _ => []
      end
  | EmptyString => []
  end.

Definition one_digit (lo hi : Z) (s : string) : list (Z * string) :=
  match s with
  | String a rest =>
      match digit_in lo hi a with
      | Some a => [(a, rest)]
      | None => []
      end
  | EmptyString => []
  end.

Definition space_digit (s : string) : list (Z * string) :=
  match s with
  | String c rest =>
      if Ascii.eqb c " "%char then one_digit 1 9 rest else []
  | EmptyString => []
  end.

(** The alternatives of [%m] and of [%d], in the order the engine tries
    them. *)
Definition month_alts (s : string) : list (Z * string) :=
  two_digits 1 1 0 2 s ++ two_digits 0 0 1 9 s ++ one_digit 1 9 s.

Definition day_alts `{ud : Unicode} (s : string) : list (Z * string) :=
  two_digits 3 3 0 1 s ++ digit_then_any 1 2 s ++ two_digits 0 0 1 9 s
  ++ one_digit 1 9 s ++ space_digit s.

(** The first way, in backtracking order, to match month, dash and day. *)
Fixpoint match_month_day `{ud : Unicode} (alts : list (Z * string)) : option (Z * Z * string) :=
  match alts with
  | [] => None
  | (m, s) :: alts' =>
      match expect_dash s with
      | Some s' =>
          match day_alts s' with
          | (d, rest) :: _ => Some (m, d, rest)
          | [] => match_month_day alts'
          end
      | None => match_month_day alts'
      end
  end.

Definition strptime_date `{ud : Unicode} (s : string) : option datetime :=
  match parse_year s with
  | Some (y, s1) =>
      match expect_dash s1 with
      | Some s2 =>
          match match_month_day (month_alts s2) with
          | Some (m, d, EmptyString) =>
              if valid_date y m d then Some (mkDatetime y m d 0 0 0 0) else None
          | _ => None
          end
      | None => None
      end
  | None => None
  end.

End DateTime.

(** ** Exceptions and results *)

Module Py.

Inductive exn :=
| RuntimeError (msg : string)
| OSError (msg : string)
| ValueError (msg : string)
| CvError (msg : string)
(** a reference without an object: not reachable from Python, where every
    name is bound to a live object *)
| DanglingReference.

Inductive outcome (A : Type) :=
| Ok (a : A)
| Raise (e : exn).
Arguments Ok {A} a.
Arguments Raise {A} e.

End Py.

(** ** Images and the OpenCV operations *)

Module Cv.

(** A reference to a numpy array held by the caller. *)
Definition loc := positive.

Definition bgr := (Z * Z * Z)%type.
(** [H] rows of [W] pixels; [shape] is [(H, W, 3)]. *)
Abbreviation frame := (list (list bgr)).
(** Single channel, 8 bit. *)
Abbreviation gray := (list (list Z)).
(** Single channel, float32. *)
Abbreviation fimage := (list (list Q)).
Definition point := (Z * Z)%type.
Abbreviation contour := (list point).
(** A bounding box [(x, y, w, h)]. *)
Definition region := (Z * Z * Z * Z)%type.

Definition shape0 {A} (img : list (list A)) : Z := Z.of_nat (length img).
Definition shape1 {A} (img : list (list A)) : Z :=
  Z.of_nat (length (default [] (head img))).

(** The pixel in row [r] and column [c], when there is one. *)
Definition px_at {A} (img : list (list A)) (r c : nat) : option A :=
  img !! r ≫= λ row, row !! c.

Definition same_shape {A B} (a : list (list A)) (b : list (list B)) : bool :=
  bool_decide (map length a = map length b).

(** [np.float32(img)] of an 8-bit image: exact. *)
Definition float32 (img : gray) : fimage := map (map inject_Z) img.

(** [cvRound]: to the nearest integer, ties to the even one. *)
Definition cvRound (q : Q) : Z :=
  let f := Qfloor q in
  match (q - inject_Z f ?= 1 # 2)%Q with
  | Lt => f
  | Gt => f + 1
  | Eq => if Z.even f then f else f + 1
  end.

(** [saturate_cast<uchar>] *)
Definition saturate_u8 (z : Z) : Z := Z.max 0 (Z.min 255 z).

(** [cv2.convertScaleAbs(src)] with scale 1 and shift 0:
    [saturate_cast<uchar>(|src|)]. *)
Definition convertScaleAbs_px (q : Q) : Z := saturate_u8 (cvRound (Qabs q)).
Definition convertScaleAbs (img : fimage) : gray := map (map convertScaleAbs_px) img.

(** [cv2.absdiff(a, b)] on 8-bit images; OpenCV raises when the sizes
    differ. *)
Definition absdiff_px (a b : Z) : Z := saturate_u8 (Z.abs (a - b)).
Definition absdiff (a b : gray) : option gray :=
  if same_shape a b then Some (zip_with (zip_with absdiff_px) a b) else None.

(** [cv2.threshold(src, thresh, maxval, THRESH_BINARY)[1]] on an 8-bit
    image. The binding takes [thresh] as a C double, and raises when the
    Python int is too large for one; OpenCV then compares the pixels with
    [ithresh = cvFloor(thresh)], a C int ([threshold] below). *)
Definition fits_double (z : Z) : bool := Z.abs z <? 2 ^ 1024 - 2 ^ 970.
Definition fits_int (z : Z) : bool := (- (2 ^ 31) <=? z) && (z <? 2 ^ 31).

Definition threshold_px (ithresh maxval v : Z) : Z :=
  if ithresh <? v then saturate_u8 maxval else 0.

(** [cv2.dilate(src, None, iterations=n)]: the 3x3 rectangular structuring
    element, anchored at its centre; pixels beyond the border do not
    contribute. *)
Definition pixel (img : gray) (r c : Z) : Z :=
  if (r <? 0) || (c <? 0) then 0
  else default 0 (img !! Z.to_nat r ≫= λ row, row !! Z.to_nat c).

Definition max3 (a b c : Z) : Z := Z.max a (Z.max b c).

Definition dilate_px (img : gray) (r c : Z) : Z :=
  max3 (max3 (pixel img (r - 1) (c - 1)) (pixel img (r - 1) c) (pixel img (r - 1) (c + 1)))
       (max3 (pixel img r (c - 1)) (pixel img r c) (pixel img r (c + 1)))
       (max3 (pixel img (r + 1) (c - 1)) (pixel img (r + 1) c) (pixel img (r + 1) (c + 1))).

Definition dilate_once (img : gray) : gray :=
  imap (λ r row, imap (λ c _, dilate_px img (Z.of_nat r) (Z.of_nat c)) row) img.


(** [cv2.contourArea(contour)]: Green's formula over the closed polygon,
    unsigned. *)
Fixpoint shoelace (first prev : point) (rest : contour) : Z :=
  match rest with
  | [] => prev.1 * first.2 - first.1 * prev.2
  | p :: rest' => prev.1 * p.2 - p.1 * prev.2 + shoelace first p rest'
  end.

Definition contourArea (c : contour) : Q :=
  match c with
  | [] => 0
  | p :: rest => Z.abs (shoelace p p rest) # 2
  end.

(** [cv2.boundingRect(contour)] of integer points. *)
Definition boundingRect (c : contour) : region :=
  match c with
  | [] => (0, 0, 0, 0)
  | p :: rest =>
      let x0 := foldr (λ q, Z.min q.1) p.1 rest in
      let x1 := foldr (λ q, Z.max q.1) p.1 rest in
      let y0 := foldr (λ q, Z.min q.2) p.2 rest in
      let y1 := foldr (λ q, Z.max q.2) p.2 rest in
      (x0, y0, x1 - x0 + 1, y1 - y0 + 1)
  end.

(** The part of [cv2] the source calls and does not determine. The
    functions are total: they stand for OpenCV on the frames of the data
    model (8 bit, three channels, not empty) and with an odd, positive
    kernel size, where OpenCV does not raise. *)
Class OpenCV := {
  (** [cv2.cvtColor(frame, COLOR_BGR2GRAY)] *)
  cvtColor : frame → gray;
  (** [cv2.GaussianBlur(img, (k, k), 0)] *)
  GaussianBlur : gray → Z → gray;
  (** [cv2.findContours(mask, RETR_EXTERNAL, CHAIN_APPROX_SIMPLE)[0]] *)
  findContours : gray → list contour;
  (** [cv2.rectangle(img, pt1, pt2, color, thickness)] *)
  rectangle : frame → point → point → bgr → Z → frame;
  (** [cv2.putText(img, text, org, FONT_HERSHEY_SIMPLEX, scale, color,
      thickness)] *)
  putText : frame → string → point → Z → bgr → Z → frame;
  (** rounding of a real number to float32 *)
  fl32 : Q → Q;
  (** the C int that [cvFloor] gives for a double outside the range of
      int, where C leaves the conversion undefined: the least int on
      x86-64 *)
  cvFloor_overflow : Z → Z;
  (** whether the machine has the memory for a structuring element of
      that many pixels a side *)
  kernel_fits : Z → bool
}.

(** With no kernel given and a count other than 0, OpenCV dilates once by
    a rectangle of [2 * iterations + 1] pixels a side, which is
    [iterations] passes of the 3x3 one. It raises when it cannot make that
    rectangle: for a negative count, for a side that is no C int, and for
    want of memory. *)
Definition dilates `{OpenCV} (iterations : Z) : bool :=
  (iterations =? 0)
  || ((0 <? iterations) && (iterations <? 2 ^ 30) && kernel_fits (2 * iterations + 1)).

Definition dilate `{OpenCV} (img : gray) (iterations : Z) : option gray :=
  if dilates iterations
  then Some (Nat.iter (Z.to_nat iterations) dilate_once img)
  else None.

Definition cvFloor_int `{OpenCV} (thresh : Z) : Z :=
  if fits_int thresh then thresh else cvFloor_overflow thresh.

Definition threshold `{OpenCV} (src : gray) (thresh maxval : Z) : option gray :=
  if fits_double thresh
  then Some (map (map (threshold_px (cvFloor_int thresh) maxval)) src)
  else None.

(** [cv2.accumulateWeighted(src, dst, alpha)] on float32 images, as the
    scalar loop of OpenCV computes it: [a = (float)alpha], [b = 1 - a],
    [dst = src*a + dst*b], every operation rounded to float32. The result
    replaces [dst]. *)
Definition accumulate_px `{OpenCV} (alpha : Q) (s d : Q) : Q :=
  let a := fl32 alpha in
  let b := fl32 (1 - a) in
  fl32 (fl32 (s * a) + fl32 (d * b)).

Definition accumulateWeighted `{OpenCV} (src dst : fimage) (alpha : Q) : fimage :=
  zip_with (zip_with (accumulate_px alpha)) src dst.

Definition blank (img : gray) : Prop := Forall (Forall (eq 0)) img.

End Cv.

(** ** The motion detector ([ObjectDetector]) *)

Module Detector.
Import Py Cv.

Record ObjectDetector := mkObjectDetector {
  min_area : Z;
  threshold : Z;
  blur_size : Z;
  dilate_iterations : Z;
  background : option fimage
}.

(** [__init__]; the defaults are 500, 30, 21 and 2. *)
Definition init (min_area threshold blur_size dilate_iterations : Z) : ObjectDetector :=
  mkObjectDetector min_area threshold blur_size dilate_iterations None.

Definition set_background (self : ObjectDetector) (bg : fimage) : ObjectDetector :=
  mkObjectDetector (min_area self) (threshold self) (blur_size self)
    (dilate_iterations self) (Some bg).

Section WithOpenCV.
Context `{cv : OpenCV}.

Definition preprocess_frame (self : ObjectDetector) (f : frame) : gray :=
  let gray := cvtColor f in
  let blurred := GaussianBlur gray (blur_size self) in
  blurred.

(** Line 75: the difference image. *)
Definition frame_delta (bg : fimage) (preprocessed : gray) : option gray :=
  absdiff (convertScaleAbs bg) preprocessed.

(** Lines 76-82: the contours of the dilated foreground mask, or the
    exception of [cv2.threshold] or [cv2.dilate]. *)
Definition contours_of (self : ObjectDetector) (delta : gray) : outcome (list contour) :=
  match Cv.threshold delta (threshold self) 255 with
  | None => Raise (CvError "Argument 'thresh' can not be treated as a double")
  | Some thresh =>
      match dilate thresh (dilate_iterations self) with
      | None => Raise (CvError "Bad size of the structuring element")
      | Some thresh => Ok (findContours thresh)
      end
  end.

(** [cv2.contourArea(contour) < self.min_area] *)
Definition too_small (self : ObjectDetector) (c : contour) : bool :=
  match (contourArea c ?= inject_Z (min_area self))%Q with
  | Lt => true
  | _ => false
  end.

(** One round of the loop of lines 88-97: [acc] is [detected_objects] and
    the store, in which the box is drawn on [processed_frame]. *)
Definition process_contour (self : ObjectDetector) (processed_frame : loc)
    (acc : list region * gmap loc frame) (c : contour) : list region * gmap loc frame :=
  if too_small self c then acc
  else
    let '(x, y, w, h) := boundingRect c in
    (acc.1 ++ [(x, y, w, h)],
     alter (λ img, rectangle img (x, y) (x + w, y + h) (0, 255, 0) 2)
       processed_frame acc.2).

(** What the loop collects: the bounding boxes of the contours that are not
    too small, in the order of the contours (see [process_contours_regions]). *)
Definition regions_of (self : ObjectDetector) (contours : list contour) : list region :=
  boundingRect <$> filter (λ c, too_small self c = false) contours.

Definition detect_objects (self : ObjectDetector) (heap : gmap loc Cv.frame) (frame : loc)
  : outcome (list region * loc) * ObjectDetector * gmap loc Cv.frame :=
  match heap !! frame with
  | None => (Raise DanglingReference, self, heap)
  | Some f =>
      (* processed_frame = frame.copy() *)
      let processed_frame := fresh (dom heap) in
      let heap := <[processed_frame := f]> heap in
      let preprocessed := preprocess_frame self f in
      match background self with
      | None =>
          (Ok ([], processed_frame), set_background self (float32 preprocessed), heap)
      | Some bg =>
          match frame_delta bg preprocessed with
          | None => (Raise (CvError "Sizes of input arguments do not match"), self, heap)
          | Some delta =>
              match contours_of self delta with
              | Raise e => (Raise e, self, heap)
              | Ok contours =>
                  let '(detected_objects, heap) :=
                    foldl (process_contour self processed_frame) ([], heap) contours in
                  (Ok (detected_objects, processed_frame),
                   set_background self
                     (accumulateWeighted (float32 preprocessed) bg (2 # 10)),
                   heap)
              end
          end
      end
  end.

End WithOpenCV.

End Detector.

(** ** The event store ([ImageStorage]) *)

Module Store.
Import Py Cv DateTime.

(** *** Files *)

#[local] Set Warnings "-register-all".

(** What [json.dump] is given. *)
Inductive json :=
| JString (s : string)
| JNumber (n : Z)
| JObject (members : list (string * json)).

Inductive file :=
| ImageFile (img : frame)
| JsonFile (doc : json).

(** An entry of [images_path]: a plain file, a directory with the files it
    holds, or a symbolic link ([to_dir]: its target is a directory, one
    that is not among the entries listed here). *)
Inductive entry :=
| EFile
| EDir (files : gmap string file)
| ELink (to_dir : bool).

(** [images_path], in the order [iterdir()] lists it. *)
Abbreviation directory := (list (string * entry)).

(** [images_path / bucket / name] *)
Record path := mkPath { bucket : string; name : string }.

(** [Path.is_dir()] follows symbolic links. *)
Definition is_dir (e : entry) : bool :=
  match e with
  | EFile => false
  | EDir _ => true
  | ELink to_dir => to_dir
  end.

(** [PurePath.suffix] and [with_suffix] on the last component. *)
Fixpoint rfind_dot (s : string) (i : nat) : option nat :=
  match s with
  | EmptyString => None
  | String c rest =>
      match rfind_dot rest (S i) with
      | Some j => Some j
      | None => if Ascii.eqb c "."%char then Some i else None
      end
  end.

Definition suffix (name : string) : string :=
  match rfind_dot name 0 with
  | Some i =>
      if Nat.ltb 0 i && Nat.ltb i (String.length name - 1)
      then String.substring i (String.length name - i) name
      else ""
  | None => ""
  end.

Definition with_suffix (p : path) (sfx : string) : path :=
  let n := name p in
  mkPath (bucket p)
    (String.substring 0 (String.length n - String.length (suffix n)) n +:+ sfx).

(** Creating or truncating a file of a bucket. [None]: the file cannot be
    opened, because the bucket is missing or is not a directory. A write
    through a link leaves the listed entries as they are. *)
Fixpoint put_file (d : directory) (p : path) (f : file) : option directory :=
  match d with
  | [] => None
  | (n, e) :: d' =>
      if decide (n = bucket p) then
        match e with
        | EDir files => Some ((n, EDir (<[name p := f]> files)) :: d')
        | ELink true => Some d
        | _ => None
        end
      else cons (n, e) <$> put_file d' p f
  end.

(** *** Effects *)

Inductive log_record :=
| SkippingSave (interval elapsed_us : Z)
| SavedFrame (p : path)
| FailedToSave (e : exn)
| RemovedOldDirectory (name : string)
| FailedToCleanup (e : exn).

(** What the store does to the outside, in order. *)
Inductive event :=
| DiskUsage (free : Z)
| IterDir
| RmTree (name : string)
| WroteImage (p : path) (img : frame)
| WroteJson (p : path) (doc : json)
| Log (r : log_record).

Record ImageStorage := mkImageStorage {
  max_storage_bytes : Z;
  last_save_timestamp : option datetime;
  min_save_interval : Z
}.

(** [__init__] (the directories apart); [max_storage_gb] defaults to 10. *)
Definition init (max_storage_gb : Z) : ImageStorage :=
  mkImageStorage (max_storage_gb * 1024 * 1024 * 1024) None 10.

Record state := mkState {
  self : ImageStorage;
  heap : gmap loc frame;
  images : directory;
  trace : list event
}.

(** What one call of [save_detected_object] reads from outside: the clock
    at each [datetime.now()], the free space at each [shutil.disk_usage],
    and whether the image and metadata writes go through. *)
Inductive imwrite_status :=
| Written
(** [cv2.imwrite] could not write and says so by returning [False] *)
| ReturnedFalse
| Raised (e : exn).

(** What [shutil.rmtree] does to a real directory: it removes it with
    all it holds, or it raises, after it has removed the files [gone]. *)
Inductive rmtree_status :=
| Removed
| Failed (e : exn) (gone : list string).

(** What the file system answers to one scan of [cleanup_old_files]:
    whether the directory can be listed, whether an entry can be examined
    ([is_dir] raises when [stat] fails other than by absence), and how the
    removal of a bucket goes. *)
Record scan := mkScan {
  iterdir_fault : option exn;          (* line 154 *)
  is_dir_fault : string → option exn;  (* line 155 *)
  rmtree : string → rmtree_status      (* line 161 *)
}.

Record environment := mkEnvironment {
  now_check : datetime;      (* line 84 *)
  now_cleanup : datetime;    (* line 153 *)
  cleanup_scan : scan;       (* lines 154-161 *)
  now_id : datetime;         (* line 97 *)
  now_iso : datetime;        (* line 103 *)
  now_name : datetime;       (* line 66 *)
  now_bucket : datetime;     (* line 68 *)
  now_label : datetime;      (* line 124 *)
  free_first : Z;
  free_second : Z;
  render_fault : option exn; (* lines 120-126 *)
  imwrite_fault : imwrite_status;
  json_fault : option exn    (* lines 133-134 *)
}.

(** Computations that read and change the state and may raise. *)
Definition M (A : Type) : Type := state → outcome A * state.

Definition ret {A} (a : A) : M A := λ s, (Ok a, s).
Definition bind {A B} (m : M A) (k : A → M B) : M B := λ s,
  match m s with
  | (Ok a, s') => k a s'
  | (Raise e, s') => (Raise e, s')
  end.

Notation "'let*' x ':=' m 'in' k" := (bind m (λ x, k))
  (at level 10, x name, m at level 100, k at level 200).
Notation "m ;; k" := (bind m (λ _, k))
  (at level 100, k at level 200, right associativity).

Definition raise {A} (e : exn) : M A := λ s, (Raise e, s).
Definition gets {A} (f : state → A) : M A := λ s, (Ok (f s), s).
Definition modify (f : state → state) : M unit := λ s, (Ok tt, f s).
Definition try_except {A} (body : M A) (handler : exn → M A) : M A := λ s,
  match body s with
  | (Ok a, s') => (Ok a, s')
  | (Raise e, s') => handler e s'
  end.

Definition emit (ev : event) : M unit :=
  modify (λ s, mkState (self s) (heap s) (images s) (trace s ++ [ev])).
Definition set_images (d : directory) : M unit :=
  modify (λ s, mkState (self s) (heap s) d (trace s)).
Definition set_last_save_timestamp (t : datetime) : M unit :=
  modify (λ s,
    mkState (mkImageStorage (max_storage_bytes (self s)) (Some t)
               (min_save_interval (self s)))
      (heap s) (images s) (trace s)).
Definition fault (f : option exn) : M unit :=
  match f with
  | Some e => raise e
  | None => ret tt
  end.

(** [arr.copy()] *)
Definition copy (src : loc) : M loc := λ s,
  match heap s !! src with
  | None => (Raise DanglingReference, s)
  | Some img =>
      let l := fresh (dom (heap s)) in
      (Ok l, mkState (self s) (<[l := img]> (heap s)) (images s) (trace s))
  end.

(** A drawing call: it changes the array it is given, in place. *)
Definition draw (dst : loc) (f : frame → frame) : M unit :=
  modify (λ s, mkState (self s) (alter f dst (heap s)) (images s) (trace s)).

Definition read (src : loc) : M frame := λ s,
  match heap s !! src with
  | None => (Raise DanglingReference, s)
  | Some img => (Ok img, s)
  end.

(** [cv2.imwrite(str(full_path), img)]: [False], and no exception, when the
    file cannot be written. *)
Definition imwrite (status : imwrite_status) (p : path) (src : loc) : M bool :=
  match status with
  | Raised e => raise e
  | ReturnedFalse => ret false
  | Written =>
      let* img := read src in
      let* d := gets images in
      match put_file d p (ImageFile img) with
      | Some d' => set_images d';; emit (WroteImage p img);; ret true
      | None => ret false
      end
  end.

(** [with open(metadata_path, 'w') as f: json.dump(metadata, f, indent=2)] *)
Definition write_json (f : option exn) (p : path) (doc : json) : M unit :=
  fault f;;
  let* d := gets images in
  match put_file d p (JsonFile doc) with
  | Some d' => set_images d';; emit (WroteJson p doc)
  | None => raise (OSError "No such file or directory")
  end.

(** *** Retention *)

Section WithUnicode.
Context `{ud : Unicode}.

(** [(current_time - dir_date).days > days_to_keep] for a name that
    parses. *)
Definition expired (current_time : datetime) (days_to_keep : Z) (name : string) : bool :=
  match strptime_date name with
  | Some dir_date => days_to_keep <? days (sub current_time dir_date)
  | None => false
  end.

(** What a failed removal leaves of a bucket. *)
Definition left_of (files : gmap string file) (gone : list string) : gmap string file :=
  foldr delete files gone.

(** The rounds of the loop of lines 154-164 over the listing: what is left
    of it, the effects, and the exception that ended the scan, if any.
    [shutil.rmtree] refuses a symbolic link with [OSError]. The handler of
    line 163 takes a [ValueError], of [strptime] or of [rmtree], and the
    scan goes on; the handler of line 166 is outside the loop, so any other
    exception ends the scan. *)
Fixpoint cleanup_rounds (fs : scan) (current_time : datetime) (days_to_keep : Z)
    (listing : directory) : directory * list event * option exn :=
  match listing with
  | [] => ([], [], None)
  | (name, e) :: rest =>
      let next (e' : entry) :=
        let '(d, evs, err) := cleanup_rounds fs current_time days_to_keep rest in
        ((name, e') :: d, evs, err) in
      match is_dir_fault fs name with
      | Some err => ((name, e) :: rest, [], Some err)
      | None =>
          if negb (is_dir e) || bool_decide (name = "latest") then next e
          else
            match strptime_date name with
            | None => next e
            | Some dir_date =>
                if days_to_keep <? days (sub current_time dir_date) then
                  match e with
                  | EDir files =>
                      match rmtree fs name with
                      | Removed =>
                          let '(d, evs, err) :=
                            cleanup_rounds fs current_time days_to_keep rest in
                          (d, RmTree name :: Log (RemovedOldDirectory name) :: evs, err)
                      | Failed (ValueError _) gone => next (EDir (left_of files gone))
                      | Failed err gone =>
                          ((name, EDir (left_of files gone)) :: rest, [], Some err)
                      end
                  | _ =>
                      ((name, e) :: rest, [],
                       Some (OSError "Cannot call rmtree on a symbolic link"))
                  end
                else next e
            end
      end
  end.

(** The [for] statement of lines 154-164: the listing, then the rounds. *)
Definition cleanup_loop (fs : scan) (current_time : datetime) (days_to_keep : Z)
    (listing : directory) : directory * list event * option exn :=
  match iterdir_fault fs with
  | Some err => (listing, [], Some err)
  | None => cleanup_rounds fs current_time days_to_keep listing
  end.

Definition cleanup_old_files (fs : scan) (current_time : datetime) (days_to_keep : Z)
  : M unit :=
  emit IterDir;;
  let* d := gets images in
  let '(d', evs, err) := cleanup_loop fs current_time days_to_keep d in
  set_images d';;
  modify (λ s, mkState (self s) (heap s) (images s) (trace s ++ evs));;
  match err with
  | Some e => emit (Log (FailedToCleanup e))
  | None => ret tt
  end.

End WithUnicode.

(** *** Saving *)

(** [free > self.max_storage_bytes * 0.1]. The budget is an integer number
    of bytes ([max_storage_gb * 1024**3] with the integer default 10), and
    the comparison of the integer [free] with the float product is the one
    of the exact numbers, [10 * free > budget], for every budget below
    2**49: 0.1 as a float is off by a factor [1 + 2**-54], too little to
    move the product across an integer. *)
Definition check_storage_space (free : Z) : M bool :=
  emit (DiskUsage free);;
  let* st := gets self in
  ret (max_storage_bytes st <? 10 * free).

Definition generate_filename (t_name t_bucket : datetime) (object_id : string)
  : string * path :=
  let timestamp := strftime_hms_dash t_name in
  let filename := timestamp +:+ "_object_" +:+ object_id +:+ ".jpg" in
  let current_date := strftime_date t_bucket in
  (filename, mkPath current_date filename).

(** The [metadata] dictionary of lines 101-114. *)
Definition metadata_of (object_id timestamp : string) (bbox : region) (f : Cv.frame) : json :=
  let '(x, y, w, h) := bbox in
  JObject
    [("object_id", JString object_id);
     ("timestamp", JString timestamp);
     ("bbox", JObject [("x", JNumber x); ("y", JNumber y);
                       ("width", JNumber w); ("height", JNumber h)]);
     ("frame_size", JObject [("width", JNumber (shape1 f));
                             ("height", JNumber (shape0 f))])].

(** The image path of a save, and the metadata path next to it. *)
Definition full_path (env : environment) : path :=
  (generate_filename (now_name env) (now_bucket env) (strftime_id (now_id env))).2.

Definition metadata_path (env : environment) : path :=
  with_suffix (full_path env) ".json".

(** *** Reading a trace and a listing *)

Definition is_write (ev : event) : bool :=
  match ev with
  | WroteImage _ _ | WroteJson _ _ => true
  | _ => false
  end.

Definition is_iterdir (ev : event) : bool :=
  match ev with
  | IterDir => true
  | _ => false
  end.

Definition disk_readings (evs : list event) : list Z :=
  omap (λ ev, match ev with DiskUsage free => Some free | _ => None end) evs.

Section WithUnicode.
Context `{ud : Unicode}.

(** A real directory whose name is a date more than [days_to_keep] days
    back. *)
Definition expired_bucket (current_time : datetime) (days_to_keep : Z)
    (ne : string * entry) : bool :=
  match ne.2 with
  | EDir _ => expired current_time days_to_keep ne.1
  | _ => false
  end.




End WithUnicode.

Section WithOpenCV.
Context `{cv : OpenCV} `{ud : Unicode}.

(** Whether line 87 holds: a save is on record and less than the minimum
    interval has passed since. *)
Definition rate_limited (st : ImageStorage) (current_time : datetime) : bool :=
  match last_save_timestamp st with
  | Some last => total_seconds_lt (sub current_time last) (min_save_interval st)
  | None => false
  end.

(** Lines 91-94: the quota check, with one cleanup and one more check when
    space is short. *)
Definition ensure_space (env : environment) : M unit :=
  let* has_space := check_storage_space (free_first env) in
  if has_space then ret tt
  else
    cleanup_old_files (cleanup_scan env) (now_cleanup env) 7;;
    let* has_space := check_storage_space (free_second env) in
    if has_space then ret tt
    else raise (RuntimeError "Insufficient storage space").

(** Lines 96-139: the metadata, the annotated copy, the two files, and the
    time of the save. *)
Definition persist (env : environment) (current_time : datetime)
    (frame : loc) (bbox : region) : M bool :=
  let object_id := strftime_id (now_id env) in
  let '(x, y, w, h) := bbox in
  let* f := read frame in
  let metadata := metadata_of object_id (isoformat (now_iso env)) bbox f in
  let '(_, full_path) := generate_filename (now_name env) (now_bucket env) object_id in
  let* frame_with_box := copy frame in
  fault (render_fault env);;
  draw frame_with_box (λ img, rectangle img (x, y) (x + w, y + h) (0, 255, 0) 2);;
  let timestamp := strftime_label (now_label env) in
  draw frame_with_box (λ img, putText img timestamp (10, 30) 1 (0, 255, 0) 2);;
  imwrite (imwrite_fault env) full_path frame_with_box;;
  let metadata_path := with_suffix full_path ".json" in
  write_json (json_fault env) metadata_path metadata;;
  set_last_save_timestamp current_time;;
  emit (Log (SavedFrame full_path));;
  ret true.

(** The body of the [try] of [save_detected_object]. *)
Definition save_body (env : environment) (frame : loc) (bbox : region) : M bool :=
  let current_time := now_check env in
  let* st := gets self in
  if rate_limited st current_time then
    emit (Log (SkippingSave (min_save_interval st)
                 (sub current_time (default current_time (last_save_timestamp st)))));;
    ret false
  else
    ensure_space env;;
    persist env current_time frame bbox.

Definition save_detected_object (env : environment) (frame : loc) (bbox : region) : M bool :=
  try_except (save_body env frame bbox)
    (λ e, emit (Log (FailedToSave e));; ret false).

End WithOpenCV.

End Store.

(** ** The capture loop ([main.py]) *)

Module Loop.
Import Py Cv DateTime.

(** The metadata records and the images among the effects. *)
Definition is_metadata_write (ev : Store.event) : bool :=
  match ev with
  | Store.WroteJson _ _ => true
  | _ => false
  end.

Definition is_image_write (ev : Store.event) : bool :=
  match ev with
  | Store.WroteImage _ _ => true
  | _ => false
  end.

Definition is_rmtree (ev : Store.event) : bool :=
  match ev with
  | Store.RmTree _ => true
  | _ => false
  end.

(** The names of a listing. *)
Definition names (d : Store.directory) : list string := fst <$> d.

Definition with_heap (s : Store.state) (heap : gmap loc frame) : Store.state :=
  Store.mkState (Store.self s) heap (Store.images s) (Store.trace s).

Section WithOpenCV.
Context `{cv : OpenCV} `{ud : Unicode}.

(** What [save_detected_object] draws on its copy of the frame (lines
    119-126). *)
Definition annotate (f : frame) (bbox : region) (timestamp : string) : frame :=
  let '(x, y, w, h) := bbox in
  putText (rectangle f (x, y) (x + w, y + h) (0, 255, 0) 2)
    timestamp (10, 30) 1 (0, 255, 0) 2.

(** Lines 47-48: [for bbox in objects:
    storage.save_detected_object(frame, bbox)]. The call for the region of
    index [i] reads [envs i]. *)
Fixpoint save_objects (envs : nat → Store.environment) (frame : loc)
    (objects : list region) : Store.M unit :=
  match objects with
  | [] => Store.ret tt
  | bbox :: rest =>
      Store.bind (Store.save_detected_object (envs 0%nat) frame bbox)
        (λ _, save_objects (λ i, envs (S i)) frame rest)
  end.

(** Lines 44-48, one round of the loop on a captured frame: the detection,
    then the saves. The detector and the store work on the same arrays. *)
Definition process_frame (detector : Detector.ObjectDetector)
    (envs : nat → Store.environment) (frame : loc) (s : Store.state)
  : outcome (list region * loc) * Detector.ObjectDetector * Store.state :=
  match Detector.detect_objects detector (Store.heap s) frame with
  | (Raise e, detector', heap') => (Raise e, detector', with_heap s heap')
  | (Ok (objects, processed_frame), detector', heap') =>
      match save_objects envs frame objects (with_heap s heap') with
      | (Ok _, s') => (Ok (objects, processed_frame), detector', s')
      | (Raise e, s') => (Raise e, detector', s')
      end
  end.

(** The detections of the loop on a sequence of captured frames; an
    exception of [detect_objects] leaves the loop. *)
Fixpoint detect_each (detector : Detector.ObjectDetector) (heap : gmap loc frame)
    (frames : list loc)
  : outcome (list (list region)) * Detector.ObjectDetector * gmap loc frame :=
  match frames with
  | [] => (Ok [], detector, heap)
  | frame :: rest =>
      match Detector.detect_objects detector heap frame with
      | (Raise e, detector', heap') => (Raise e, detector', heap')
      | (Ok (objects, _), detector', heap') =>
          match detect_each detector' heap' rest with
          | (Ok results, detector'', heap'') => (Ok (objects :: results), detector'', heap'')
          | (Raise e, detector'', heap'') => (Raise e, detector'', heap'')
          end
      end
  end.

End WithOpenCV.

(** *** The arithmetic of the background model *)





End Loop.

(** ** Stand-ins for the OpenCV interface

    Simple total functions with which the model runs on concrete frames.
    On a uniformly grey frame [cvtColor] and [GaussianBlur] return what
    OpenCV returns, the grey level everywhere. [findContours] returns the
    rectangle round the whole foreground: what OpenCV returns on a mask
    without foreground (nothing) and on a mask whose foreground is one
    solid rectangle (its four corners). The drawing functions only mark the
    outline. Arithmetic is exact, a double beyond the range of int becomes
    the least int, and there is memory for a structuring element of up to
    [2^15] pixels a side. *)

Module Sim.
Import Cv DateTime.

Definition luma (p : bgr) : Z :=
  let '(b, g, r) := p in (114 * b + 587 * g + 299 * r + 500) / 1000.

Definition cvtColor (f : frame) : gray := map (map luma) f.

Definition GaussianBlur (img : gray) (ksize : Z) : gray := img.

(** The [(x, y)] of the pixels that are not zero, row by row. *)
Definition foreground_row (r : nat) (row : list Z) : list point :=
  omap id (imap (λ c v, if v =? 0 then None else Some (Z.of_nat c, Z.of_nat r)) row).

Definition foreground (img : gray) : list point :=
  concat (imap foreground_row img).

Definition findContours (img : gray) : list contour :=
  match foreground img with
  | [] => []
  | pts =>
      let '(x, y, w, h) := boundingRect pts in
      [[(x, y); (x, y + h - 1); (x + w - 1, y + h - 1); (x + w - 1, y)]]
  end.

Definition on_outline (pt1 pt2 : point) (r c : Z) : bool :=
  ((pt1.1 <=? c) && (c <=? pt2.1) && ((r =? pt1.2) || (r =? pt2.2)))
  || ((pt1.2 <=? r) && (r <=? pt2.2) && ((c =? pt1.1) || (c =? pt2.1))).

(** A one-pixel outline, whatever the thickness. *)
Definition rectangle (img : frame) (pt1 pt2 : point) (color : bgr) (thickness : Z) : frame :=
  imap (λ r row,
    imap (λ c px, if on_outline pt1 pt2 (Z.of_nat r) (Z.of_nat c) then color else px) row)
    img.

(** The text is reduced to a mark at its origin. *)
Definition putText (img : frame) (text : string) (org : point) (scale : Z)
    (color : bgr) (thickness : Z) : frame :=
  rectangle img org org color thickness.

Definition cv : OpenCV :=
  {| Cv.cvtColor := cvtColor;
     Cv.GaussianBlur := GaussianBlur;
     Cv.findContours := findContours;
     Cv.rectangle := rectangle;
     Cv.putText := putText;
     Cv.fl32 := λ q, q;
     Cv.cvFloor_overflow := λ _, - (2 ^ 31);
     Cv.kernel_fits := λ side, side <=? 2 ^ 15 |}.

(** The Arabic-Indic digits U+0660 to U+0669, in UTF-8 the byte 217 and a
    byte from 160 to 169, stand for the digits beyond ASCII. *)
Definition nd_digit (s : string) : option (Z * string) :=
  match s with
  | String a (String b rest) =>
      let m := Z.of_nat (nat_of_ascii a) in
      let n := Z.of_nat (nat_of_ascii b) in
      if (m =? 217) && (160 <=? n) && (n <=? 169) then Some (n - 160, rest) else None
  | _ => None
  end.

Definition ud : Unicode := {| DateTime.nd_digit := nd_digit |}.

End Sim.

(** ** Concrete inputs *)

Module Examples.
Import Cv DateTime.

(** A uniformly grey frame of [n] by [n] pixels. *)
Definition grey_frame (n : nat) (v : Z) : frame := replicate n (replicate n (v, v, v)).

Definition frame0 : frame := grey_frame 3 10.
Definition heap0 : gmap loc frame := {[ 1%positive := frame0 ]}.

(** A detector with the default settings, before its first frame and with
    a background model of 10.6 everywhere. *)
Definition detector0 : Detector.ObjectDetector := Detector.init 500 30 21 2.
Definition detector1 : Detector.ObjectDetector :=
  Detector.mkObjectDetector 500 30 21 2 (Some (replicate 3 (replicate 3 (106 # 10)%Q))).
(** A detector whose model is the frame itself. *)
Definition detector2 : Detector.ObjectDetector :=
  Detector.mkObjectDetector 500 30 21 2 (Some (replicate 3 (replicate 3 (10 # 1)%Q))).

(** The detector of [detector1] with a dilation count of -1. *)
Definition detector_undilated : Detector.ObjectDetector :=
  Detector.mkObjectDetector 500 30 21 (-1) (Some (replicate 3 (replicate 3 (106 # 10)%Q))).

(** A detector with a negative threshold and a frame of 30 by 30. *)
Definition frame30 : frame := grey_frame 30 10.
Definition heap30 : gmap loc frame := {[ 1%positive := frame30 ]}.
Definition detector_neg : Detector.ObjectDetector := Detector.init 500 (-1) 21 2.
(** A detector whose threshold is the least number above the C ints. *)
Definition detector_big : Detector.ObjectDetector := Detector.init 500 (2 ^ 31) 21 2.

(** 1 June 2024, at a time of day. *)
Definition june1 (h m s us : Z) : datetime := mkDatetime 2024 6 1 h m s us.

Definition images0 : Store.directory :=
  [("2024-06-01", Store.EDir ∅);
   ("latest", Store.ELink true);
   ("2024-05-20", Store.EDir {[ "09-00-00_object_x.jpg" := Store.ImageFile frame0 ]});
   ("2024-05-25", Store.EDir ∅);
   ("notes", Store.EDir ∅);
   ("README", Store.EFile)].

(** A store as constructed, and one that saved at 10:00:00. *)
Definition store0 : Store.state :=
  Store.mkState (Store.init 10) heap0 images0 [].
Definition store1 : Store.state :=
  Store.mkState (Store.mkImageStorage (10 * 1024 * 1024 * 1024) (Some (june1 10 0 0 0)) 10)
    heap0 images0 [].

(** A file system on which every call of the scan succeeds. *)
Definition no_faults : Store.scan :=
  Store.mkScan None (λ _, None) (λ _, Store.Removed).

(** A call at 10:00:05 with [free] bytes free at both readings. *)
Definition env_of (free : Z) (status : Store.imwrite_status) : Store.environment :=
  let t := june1 10 0 5 250 in
  Store.mkEnvironment t t no_faults t t t t t free free None status None.

(** Space to spare; exactly the tenth of the budget; the image write
    failing without an exception. *)
Definition env_ok : Store.environment := env_of (2 ^ 31) Store.Written.
Definition env_imwrite_false : Store.environment := env_of (2 ^ 31) Store.ReturnedFalse.



(** Two expired buckets, and a file system that refuses to remove the
    first after it has removed one of its files. *)
Definition images_old : Store.directory :=
  [("2024-05-20", Store.EDir {[ "a.jpg" := Store.ImageFile frame0;
                                "a.json" := Store.JsonFile (Store.JNumber 0) ]});
   ("2024-05-21", Store.EDir ∅)].
Definition store_old : Store.state :=
  Store.mkState (Store.init 10) ∅ images_old [].
Definition refusing : Store.scan :=
  Store.mkScan None (λ _, None)
    (λ name, if decide (name = "2024-05-20")
             then Store.Failed (Py.OSError "Permission denied") ["a.jpg"]
             else Store.Removed).

End Examples.

Module MoreExamples.
Import Cv DateTime Examples.

(** A call that reads the time [t] at every look at the clock, with space
    to spare. *)
Definition env_at (t : datetime) : Store.environment :=
  Store.mkEnvironment t t no_faults t t t t t (2 ^ 31) (2 ^ 31) None Store.Written None.

(** A detector whose model, of 30 by 30, is much brighter than
    [frame30]. *)
Definition detector_bright : Detector.ObjectDetector :=
  Detector.mkObjectDetector 500 30 21 2 (Some (replicate 30 (replicate 30 (200 # 1)%Q))).

(** The frame of 3 by 3 and the frame of 30 by 30, held together. *)
Definition heap_mixed : gmap loc frame := {[ 1%positive := frame0; 2%positive := frame30 ]}.

(** A store as constructed whose caller holds [frame30]. *)
Definition store30 : Store.state := Store.mkState (Store.init 10) heap30 images0 [].

End MoreExamples.

(** * Properties of the operations the components share *)

Import Py Cv DateTime.

(** ** Formatting *)

Lemma is_digit_digit_char (n : Z) : is_digit (digit_char n) = true.
Proof.
  unfold digit_char.
  pose proof (Z.mod_pos_bound n 10 eq_refl) as Hk.
  assert (Z.to_nat (n mod 10) < 10)%nat as Hlt by lia.
  destruct (Z.to_nat (n mod 10)) as [|m]; [reflexivity|].
  do 9 (destruct m as [|m]; [reflexivity|]). lia.
Qed.

(** What [isoformat] prints has the shape of an ISO-8601 time stamp. *)
Lemma isoformat_iso8601 (t : datetime) : iso8601 (isoformat t) = true.
Proof.
  unfold isoformat, strftime_date, iso8601.
  destruct (microsecond t =? 0); cbn [zpad];
    repeat match goal with
    | |- context [digit_char ?n] =>
        generalize (is_digit_digit_char n); generalize (digit_char n);
        let c := fresh "c" in let H := fresh "H" in intros c H
    end;
    repeat (simpl;
            match goal with
            | H : is_digit ?c = true |- context [is_digit ?c] => rewrite H
            end);
    reflexivity.
Qed.

(** ** Rounding and pixel-wise operations *)

Lemma cvRound_cases (q : Q) :
  let f := Qfloor q in
  (cvRound q = f ∧ (q - inject_Z f <= 1 # 2)%Q)
  ∨ (cvRound q = f + 1 ∧ (1 # 2 <= q - inject_Z f)%Q).
Proof.
  intros f. unfold cvRound. fold f.
  destruct (Qcompare_spec (q - inject_Z f) (1 # 2)) as [E|E|E].
  - destruct (Z.even f); [left|right]; (split; [done|]); rewrite E; apply Qle_refl.
  - left. split; [done|]. by apply Qlt_le_weak.
  - right. split; [done|]. by apply Qlt_le_weak.
Qed.

(** [cvRound] is a nearest integer. *)
Lemma cvRound_nearest (q : Q) : (Qabs (inject_Z (cvRound q) - q) <= 1 # 2)%Q.
Proof.
  pose proof (Qfloor_le q) as Hlo. pose proof (Qlt_floor q) as Hhi.
  rewrite inject_Z_plus in Hhi. change (inject_Z 1) with 1%Q in Hhi.
  apply Qabs_Qle_condition.
  destruct (cvRound_cases q) as [[-> H]|[-> H]]; cbv zeta in *.
  - split; lra.
  - rewrite inject_Z_plus. change (inject_Z 1) with 1%Q. split; lra.
Qed.

(** It rounds up, where truncation would not, when the fraction is above
    one half. *)
Lemma cvRound_up (q : Q) :
  (1 # 2 < q - inject_Z (Qfloor q))%Q → cvRound q = Qfloor q + 1.
Proof.
  intros H. destruct (cvRound_cases q) as [[_ H']|[-> _]]; cbv zeta in *; [lra|done].
Qed.

Lemma cvRound_monotone_bounds (q : Q) (lo hi : Z) :
  (inject_Z lo <= q)%Q → (q <= inject_Z hi)%Q → lo ≤ cvRound q ≤ hi.
Proof.
  intros Hlo Hhi.
  pose proof (Qfloor_le q) as Hf. pose proof (Qlt_floor q) as Hc.
  assert (lo ≤ Qfloor q) as H1.
  { apply Z.lt_succ_r. rewrite <- Z.add_1_r.
    rewrite Zlt_Qlt. eapply Qle_lt_trans; [apply Hlo|apply Hc]. }
  assert (Qfloor q ≤ hi) as H2.
  { rewrite Zle_Qle. eapply Qle_trans; [apply Hf|apply Hhi]. }
  destruct (cvRound_cases q) as [[-> H]|[-> H]]; cbv zeta in *; [lia|].
  split; [lia|].
  destruct (Z.eq_dec (Qfloor q) hi) as [E|E]; [|lia].
  rewrite E in H. lra.
Qed.

Lemma Qabs_of_nonneg (q : Q) : (0 <= q)%Q → Qabs q = q.
Proof.
  destruct q as [n d]. unfold Qle, Qabs. simpl. intros H.
  f_equal. lia.
Qed.

(** On the range of a pixel, [convertScaleAbs] is [cvRound]. *)
Lemma convertScaleAbs_px_in_range (q : Q) :
  (0 <= q)%Q → (q <= 255)%Q →
  convertScaleAbs_px q = cvRound q ∧ 0 ≤ cvRound q ≤ 255.
Proof.
  intros H0 H255.
  assert (0 ≤ cvRound q ≤ 255) as Hr by (by apply cvRound_monotone_bounds).
  split; [|done].
  unfold convertScaleAbs_px, saturate_u8.
  rewrite Qabs_of_nonneg by done. lia.
Qed.

Lemma px_at_zip_with {A B C} (g : A → B → C) (a : list (list A)) (b : list (list B))
    (r c : nat) (x : A) (y : B) :
  px_at a r c = Some x → px_at b r c = Some y →
  px_at (zip_with (zip_with g) a b) r c = Some (g x y).
Proof.
  unfold px_at. intros Ha Hb.
  rewrite lookup_zip_with.
  destruct (a !! r) as [ra|]; [|done]. destruct (b !! r) as [rb|]; [|done].
  simpl in *. rewrite lookup_zip_with, Ha. simpl. by rewrite Hb.
Qed.

Lemma px_at_fmap {A B} (g : A → B) (a : list (list A)) (r c : nat) :
  px_at (map (map g) a) r c = g <$> px_at a r c.
Proof.
  unfold px_at. change (map (map g) a) with (fmap (M:=list) (fmap g) a).
  rewrite list_lookup_fmap. destruct (a !! r) as [ra|]; [|done].
  simpl. apply list_lookup_fmap.
Qed.

Lemma absdiff_same_shape (a b : gray) :
  map length a = map length b →
  absdiff a b = Some (zip_with (zip_with absdiff_px) a b).
Proof.
  intros H. unfold absdiff, same_shape. by rewrite bool_decide_eq_true_2.
Qed.

Lemma shape_convertScaleAbs (bg : fimage) :
  map length (convertScaleAbs bg) = map length bg.
Proof.
  unfold convertScaleAbs. rewrite map_map. apply map_ext. intros row.
  apply length_map.
Qed.

Lemma shape_zip_with {A B C} (g : A → B → C) (a : list (list A)) (b : list (list B)) :
  map length a = map length b →
  map length (zip_with (zip_with g) a b) = map length b.
Proof.
  revert b. induction a as [|ra a IH]; intros [|rb b]; simpl; try done.
  intros [= Hr Hrest]. f_equal; [|by apply IH].
  rewrite length_zip_with. lia.
Qed.

Lemma blank_lookup (img : gray) (r c : nat) (v : Z) :
  blank img → px_at img r c = Some v → v = 0.
Proof.
  unfold blank, px_at. intros Hb Hv.
  apply bind_Some in Hv as (row & Hr & Hv).
  rewrite Forall_lookup in Hb. specialize (Hb _ _ Hr).
  rewrite Forall_lookup in Hb. symmetry. by eapply Hb.
Qed.

Lemma pixel_blank (img : gray) (r c : Z) : blank img → pixel img r c = 0.
Proof.
  intros Hb. unfold pixel. destruct ((r <? 0) || (c <? 0)); [done|].
  fold (px_at img (Z.to_nat r) (Z.to_nat c)).
  destruct (px_at img (Z.to_nat r) (Z.to_nat c)) as [v|] eqn:E; [|done].
  simpl. by eapply blank_lookup.
Qed.

Lemma dilate_once_blank (img : gray) : blank img → blank (dilate_once img).
Proof.
  intros Hb. unfold blank, dilate_once.
  apply Forall_lookup. intros r row'. rewrite list_lookup_imap.
  destruct (img !! r) as [row|]; [|done]. intros [= <-].
  apply Forall_lookup. intros c v. rewrite list_lookup_imap.
  destruct (row !! c); [|done]. intros [= <-].
  unfold dilate_px, max3. by rewrite !pixel_blank.
Qed.

(** Dilating a mask without foreground leaves it without foreground. *)
Lemma dilate_blank `{cv : OpenCV} (img img' : gray) (iterations : Z) :
  dilate img iterations = Some img' → blank img → blank img'.
Proof.
  unfold dilate. destruct (dilates iterations); [|done]. intros [= <-] Hb.
  induction (Z.to_nat iterations) as [|n IH]; simpl; [done|].
  by apply dilate_once_blank.
Qed.

(** No difference anywhere and a threshold that, as a C int, is not
    negative: no foreground. *)
Lemma threshold_blank `{cv : OpenCV} (img img' : gray) (thresh maxval : Z) :
  threshold img thresh maxval = Some img' →
  0 ≤ cvFloor_int thresh → blank img → blank img'.
Proof.
  unfold threshold. destruct (fits_double thresh); [|done]. intros [= <-] Ht Hb.
  unfold blank in *.
  apply Forall_map. eapply Forall_impl; [apply Hb|]. intros row Hrow. simpl.
  apply Forall_map. eapply Forall_impl; [apply Hrow|]. intros v <-. simpl.
  unfold threshold_px. destruct (cvFloor_int thresh <? 0) eqn:E; [lia|done].
Qed.

(** An int is a double. *)
Lemma fits_int_double (z : Z) : fits_int z = true → fits_double z = true.
Proof.
  unfold fits_int, fits_double. intros H. apply andb_prop in H as [H1 H2].
  apply Z.leb_le in H1. apply Z.ltb_lt in H2. apply Z.ltb_lt.
  assert (2 ^ 31 < 2 ^ 1024 - 2 ^ 970) as Hbig by (apply Z.ltb_lt; vm_compute; reflexivity).
  set (a := 2 ^ 31) in *. set (b := 2 ^ 1024 - 2 ^ 970) in *. clearbody a b. lia.
Qed.

Lemma zip_with_absdiff_self (img : gray) : blank (zip_with (zip_with absdiff_px) img img).
Proof.
  unfold blank. induction img as [|row img IH]; simpl; constructor; [|done].
  clear IH. induction row as [|v row IH]; simpl; constructor; [|done].
  unfold absdiff_px, saturate_u8. lia.
Qed.

(** * Properties of the motion detector *)

Section DetectorProperties.
Context `{cv : OpenCV}.

Implicit Types (self : Detector.ObjectDetector) (heap : gmap loc frame).
Implicit Types (l : loc) (f : frame) (bg : fimage).

Lemma fresh_is_new heap l f :
  heap !! l = Some f → fresh (dom heap) ≠ l.
Proof.
  intros Hl Heq.
  assert (l ∈ dom heap) as Hin by (apply elem_of_dom; eauto).
  rewrite <- Heq in Hin. by apply is_fresh in Hin.
Qed.

Lemma process_contours_regions self p contours acc :
  (foldl (Detector.process_contour self p) acc contours).1
  = acc.1 ++ Detector.regions_of self contours.
Proof.
  revert acc. induction contours as [|c cs IH]; intros acc; simpl.
  - by rewrite app_nil_r.
  - rewrite IH. unfold Detector.regions_of, Detector.process_contour.
    rewrite filter_cons. destruct (Detector.too_small self c) eqn:E.
    + by rewrite decide_False by done.
    + rewrite decide_True by done.
      destruct (boundingRect c) as [[[x y] w] h] eqn:Eb. simpl.
      by rewrite <- app_assoc, Eb.
Qed.

(** Drawing touches [processed_frame] and nothing else. *)
Lemma process_contours_heap self p contours acc l :
  l ≠ p →
  (foldl (Detector.process_contour self p) acc contours).2 !! l = acc.2 !! l.
Proof.
  intros Hne. revert acc. induction contours as [|c cs IH]; intros acc; simpl.
  - done.
  - rewrite IH. unfold Detector.process_contour.
    destruct (Detector.too_small self c); [done|].
    destruct (boundingRect c) as [[[x y] w] h]. simpl.
    by rewrite lookup_alter_ne.
Qed.

(** [C2] The first call on a freshly constructed detector, whatever the
    frame holds, returns no region, and leaves as background model the
    smoothed frame itself (the blurred grey image, each pixel converted to
    float exactly): nothing is blended into it. The frame returned for
    display is a copy. *)
Theorem first_call_initialises_background
    (min_area threshold blur_size dilate_iterations : Z) heap l f :
  heap !! l = Some f →
  let self := Detector.init min_area threshold blur_size dilate_iterations in
  let smoothed := GaussianBlur (cvtColor f) blur_size in
  Detector.background self = None
  ∧ Detector.detect_objects self heap l
    = (Ok ([], fresh (dom heap)),
       Detector.set_background self (map (map inject_Z) smoothed),
       <[fresh (dom heap) := f]> heap).
Proof.
  intros Hl self smoothed. split; [done|].
  unfold Detector.detect_objects. rewrite Hl. done.
Qed.

(** With settings in range, lines 76-82 do not raise. *)
Lemma contours_of_in_range self (delta : gray) :
  fits_double (Detector.threshold self) = true →
  dilates (Detector.dilate_iterations self) = true →
  ∃ thresh mask,
    threshold delta (Detector.threshold self) 255 = Some thresh
    ∧ dilate thresh (Detector.dilate_iterations self) = Some mask
    ∧ Detector.contours_of self delta = Ok (findContours mask).
Proof.
  intros Hthr Hdil. unfold Detector.contours_of, threshold, dilate.
  rewrite Hthr, Hdil. eauto.
Qed.

(** The call after the first, when the sizes agree: the exception of the
    mask computation with the detector as it was, or the regions with the
    updated model. *)
Lemma detect_objects_next self heap l f bg :
  Detector.background self = Some bg →
  heap !! l = Some f →
  map length bg = map length (Detector.preprocess_frame self f) →
  let smoothed := Detector.preprocess_frame self f in
  let delta := zip_with (zip_with absdiff_px) (convertScaleAbs bg) smoothed in
  Detector.frame_delta bg smoothed = Some delta
  ∧ match Detector.contours_of self delta with
    | Ok contours =>
        ∃ heap',
          Detector.detect_objects self heap l
          = (Ok (Detector.regions_of self contours, fresh (dom heap)),
             Detector.set_background self
               (accumulateWeighted (float32 smoothed) bg (2 # 10)),
             heap')
    | Raise e =>
        Detector.detect_objects self heap l
        = (Raise e, self, <[fresh (dom heap) := f]> heap)
    end.
Proof.
  intros Hbg Hl Hshape smoothed delta.
  assert (Detector.frame_delta bg smoothed = Some delta) as Hd.
  { unfold Detector.frame_delta. apply absdiff_same_shape.
    by rewrite shape_convertScaleAbs. }
  split; [exact Hd|].
  unfold Detector.detect_objects. rewrite Hl, Hbg. fold smoothed. rewrite Hd.
  destruct (Detector.contours_of self delta) as [contours|e]; [|done].
  pose proof (process_contours_regions self (fresh (dom heap))
    contours ([], <[fresh (dom heap) := f]> heap)) as Hr.
  destruct (foldl _ _ _) as [regions heap'] eqn:E. simpl in Hr. subst regions.
  eauto.
Qed.

(** [C7, amended] On every call after the first that gets past the mask
    computation (a frame of the size of the model, a threshold that a
    double can hold, a dilation count that [cv2.dilate] takes: not
    negative, with memory for its structuring element), the background
    model becomes, pixel by pixel, [a * smoothed + b *
    background] with [a] the float 0.2 and [b] the float [1 - a], each
    operation rounded to float32; with exact arithmetic that is
    [(1 - 0.2) * background + 0.2 * smoothed]. The update does not depend
    on the regions the call returns: it is made whatever they are. *)
Theorem background_update_every_call self heap l f bg :
  Detector.background self = Some bg →
  heap !! l = Some f →
  map length bg = map length (Detector.preprocess_frame self f) →
  fits_double (Detector.threshold self) = true →
  dilates (Detector.dilate_iterations self) = true →
  let smoothed := Detector.preprocess_frame self f in
  let a := fl32 (2 # 10) in
  let b := fl32 (1 - a) in
  ∃ regions heap' bg',
    Detector.detect_objects self heap l
      = (Ok (regions, fresh (dom heap)), Detector.set_background self bg', heap')
    ∧ map length bg' = map length bg
    ∧ ∀ r c d s,
        px_at bg r c = Some d → px_at smoothed r c = Some s →
        px_at bg' r c = Some (fl32 (fl32 (inject_Z s * a) + fl32 (d * b)))
        ∧ ((∀ q, fl32 q = q) →
           (fl32 (fl32 (inject_Z s * a) + fl32 (d * b))
            == (1 - (2 # 10)) * d + (2 # 10) * inject_Z s)%Q).
Proof.
  intros Hbg Hl Hshape Hthr Hdil smoothed a b.
  destruct (detect_objects_next self heap l f bg Hbg Hl Hshape) as (_ & Hcall).
  cbv zeta in Hcall.
  destruct (contours_of_in_range self
              (zip_with (zip_with absdiff_px) (convertScaleAbs bg) smoothed) Hthr Hdil)
    as (thresh & mask & _ & _ & Hcont).
  fold smoothed in Hcall. rewrite Hcont in Hcall. destruct Hcall as (heap' & Hcall).
  eexists _, heap', _. split; [exact Hcall|]. split.
  - unfold accumulateWeighted. apply shape_zip_with.
    unfold float32. rewrite map_map. rewrite Hshape. apply map_ext.
    intros row. apply length_map.
  - intros r c d s Hd Hs. split.
    + unfold accumulateWeighted.
      erewrite px_at_zip_with; [reflexivity| |exact Hd].
      unfold float32. rewrite px_at_fmap. fold smoothed. by rewrite Hs.
    + intros Hexact. subst a b. rewrite !Hexact. ring.
Qed.

(** [C8] On every call after the first, on a frame of the size of the
    model, the difference image is taken between the smoothed frame and the
    background model brought to 8 bits first, and what the call returns
    comes from that difference: the regions of its contours, or the
    exception of the mask computation. The 8-bit value [n] of a model pixel
    [b] is a nearest integer to it, not its integer part: it is within one
    half of [b], and it is the integer above [b] when the fraction of [b]
    exceeds one half. *)
Theorem difference_uses_rounded_background self heap l f bg :
  Detector.background self = Some bg →
  heap !! l = Some f →
  map length bg = map length (Detector.preprocess_frame self f) →
  let smoothed := Detector.preprocess_frame self f in
  ∃ delta,
    Detector.frame_delta bg smoothed = Some delta
    ∧ (Detector.detect_objects self heap l).1.1
      = match Detector.contours_of self delta with
        | Ok contours => Ok (Detector.regions_of self contours, fresh (dom heap))
        | Raise e => Raise e
        end
    ∧ ∀ r c b p,
        px_at bg r c = Some b → px_at smoothed r c = Some p →
        (0 <= b)%Q → (b <= 255)%Q → 0 ≤ p ≤ 255 →
        ∃ n : Z,
          px_at delta r c = Some (Z.abs (n - p))
          ∧ (Qabs (inject_Z n - b) <= 1 # 2)%Q
          ∧ ((1 # 2 < b - inject_Z (Qfloor b))%Q → n = Qfloor b + 1).
Proof.
  intros Hbg Hl Hshape smoothed.
  destruct (detect_objects_next self heap l f bg Hbg Hl Hshape) as (Hd & Hcall).
  cbv zeta in Hcall. fold smoothed in Hcall.
  eexists. split; [exact Hd|]. split.
  { destruct (Detector.contours_of self _) as [contours|e].
    - destruct Hcall as (heap' & ->). done.
    - by rewrite Hcall. }
  intros r c b p Hb Hp Hb0 Hb255 Hp8.
  destruct (convertScaleAbs_px_in_range b Hb0 Hb255) as [Hconv Hrange].
  exists (cvRound b). split; [|split].
  - erewrite px_at_zip_with; [| |exact Hp].
    2:{ unfold convertScaleAbs. rewrite px_at_fmap, Hb. reflexivity. }
    rewrite Hconv. unfold absdiff_px, saturate_u8. f_equal. lia.
  - apply cvRound_nearest.
  - apply cvRound_up.
Qed.

(** A difference of zero everywhere, a threshold from 0 to [2^31 - 1] and
    a dilation count that [cv2.dilate] takes: no contour. *)
Lemma contours_of_blank self (delta : gray) :
  (∀ mask, blank mask → findContours mask = []) →
  0 ≤ Detector.threshold self < 2 ^ 31 →
  dilates (Detector.dilate_iterations self) = true →
  blank delta →
  Detector.contours_of self delta = Ok [].
Proof.
  intros Hfind Hthr Hdil Hblank.
  assert (fits_int (Detector.threshold self) = true) as Hint.
  { unfold fits_int. apply andb_true_intro.
    split; [apply Z.leb_le|apply Z.ltb_lt]; [|lia].
    assert (- (2 ^ 31) ≤ 0) by (apply Z.leb_le; reflexivity). lia. }
  destruct (contours_of_in_range self delta (fits_int_double _ Hint) Hdil)
    as (thresh & mask & Ht & Hm & ->).
  rewrite Hfind; [done|].
  eapply dilate_blank; [exact Hm|].
  eapply threshold_blank; [exact Ht| |exact Hblank].
  unfold cvFloor_int. rewrite Hint. lia.
Qed.

(** [C9, amended] When the difference threshold is not negative and is a C
    int (from 0 to [2^31 - 1]) and the dilation count is one that
    [cv2.dilate] takes (not negative, with memory for its structuring
    element), a frame whose smoothed version is, pixel for pixel, the
    8-bit rendering of the background model yields no region.
    ([findContours] finds nothing in a mask without foreground.) *)
Theorem static_scene_yields_no_region self heap l f bg :
  (∀ mask, blank mask → findContours mask = []) →
  0 ≤ Detector.threshold self < 2 ^ 31 →
  dilates (Detector.dilate_iterations self) = true →
  Detector.background self = Some bg →
  heap !! l = Some f →
  Detector.preprocess_frame self f = convertScaleAbs bg →
  (Detector.detect_objects self heap l).1.1 = Ok ([], fresh (dom heap)).
Proof.
  intros Hfind Hthr Hdil Hbg Hl Hsame.
  assert (map length bg = map length (Detector.preprocess_frame self f)) as Hshape.
  { by rewrite Hsame, shape_convertScaleAbs. }
  destruct (detect_objects_next self heap l f bg Hbg Hl Hshape) as (_ & Hcall).
  cbv zeta in Hcall. rewrite Hsame in Hcall.
  rewrite (contours_of_blank self _ Hfind Hthr Hdil (zip_with_absdiff_self _)) in Hcall.
  destruct Hcall as (heap' & ->). done.
Qed.

(** Whatever the call does, every array the caller holds is as it was. *)
Lemma detect_objects_preserves_heap self heap l l' (img : frame) :
  heap !! l' = Some img →
  (Detector.detect_objects self heap l).2 !! l' = Some img.
Proof.
  intros Hl'. pose proof (fresh_is_new _ _ _ Hl') as Hfresh.
  unfold Detector.detect_objects.
  destruct (heap !! l) as [f|]; [|done].
  destruct (Detector.background self) as [bg|]; simpl.
  - destruct (Detector.frame_delta bg _) as [delta|]; simpl.
    + destruct (Detector.contours_of self delta) as [contours|e]; simpl.
      * pose proof (process_contours_heap self (fresh (dom heap))
          contours ([], <[fresh (dom heap) := f]> heap) l') as Hh.
        destruct (foldl _ _ _) as [regions heap'] eqn:E. simpl in *.
        rewrite Hh by done. by rewrite lookup_insert_ne.
      * by rewrite lookup_insert_ne.
    + by rewrite lookup_insert_ne.
  - by rewrite lookup_insert_ne.
Qed.

End DetectorProperties.

(** * Properties of the event store *)

(** Unfolds the sequencing operations of [Store.M]. *)
Ltac run :=
  unfold Store.save_detected_object, Store.save_body, Store.try_except,
    Store.ensure_space, Store.persist, Store.check_storage_space,
    Store.cleanup_old_files, Store.imwrite, Store.write_json, Store.copy, Store.draw, Store.read, Store.fault,
    Store.set_last_save_timestamp, Store.set_images, Store.emit,
    Store.bind, Store.ret, Store.gets, Store.modify, Store.raise in *;
  simpl in *.

Ltac crunch := repeat (case_match; simpl in *; simplify_eq).

(** Closes [∃ evs, trace = trace s ++ evs ∧ P evs] on an explicit trace. *)
Ltac suffix tac :=
  simpl; rewrite <- ?app_assoc; simpl;
  first [ exists []; split; [by rewrite app_nil_r|tac]
        | eexists; split; [reflexivity|tac] ].

Section StoreProperties.
Context `{cv : OpenCV} `{ud : Unicode}.

Implicit Types (s : Store.state) (env : Store.environment) (l : loc) (bbox : region).

Arguments Store.persist : simpl never.
Arguments Store.ensure_space : simpl never.
Arguments Store.cleanup_old_files : simpl never.

(** The skipped save: one log line, nothing else. *)
Lemma save_skips env l bbox s (last : datetime) :
  Store.last_save_timestamp (Store.self s) = Some last →
  Store.rate_limited (Store.self s) (Store.now_check env) = true →
  Store.save_detected_object env l bbox s
  = (Ok false,
     Store.mkState (Store.self s) (Store.heap s) (Store.images s)
       (Store.trace s
        ++ [Store.Log (Store.SkippingSave (Store.min_save_interval (Store.self s))
                         (sub (Store.now_check env) last))])).
Proof. intros Hlast Hrl. run. rewrite Hrl, Hlast. done. Qed.

(** [C1] A save attempted less than [min_save_interval] seconds (10 for a
    store as constructed) after the save on record is skipped: it returns
    [False], writes no file, and leaves the time of the last save, the
    stored files and the caller's arrays as they were; its only effect is
    the line it logs. *)
Theorem rate_limited_save_is_skipped env l bbox s (last : datetime) :
  Store.last_save_timestamp (Store.self s) = Some last →
  sub (Store.now_check env) last < Store.min_save_interval (Store.self s) * 1000000 →
  Store.save_detected_object env l bbox s
  = (Ok false,
     Store.mkState (Store.self s) (Store.heap s) (Store.images s)
       (Store.trace s
        ++ [Store.Log (Store.SkippingSave (Store.min_save_interval (Store.self s))
                         (sub (Store.now_check env) last))]))
  ∧ ∀ max_storage_gb, Store.min_save_interval (Store.init max_storage_gb) = 10.
Proof.
  intros Hlast Hdiff. split; [|done].
  apply save_skips; [done|].
  unfold Store.rate_limited, total_seconds_lt. rewrite Hlast.
  by apply Z.ltb_lt.
Qed.

(** ** Retention *)

(** The age of a bucket is a whole number of days: the days between today's
    date and the date in its name, whatever the time of day. *)
Lemma age_in_whole_days (now : datetime) (y m d : Z) :
  valid_time now = true →
  days (sub now (mkDatetime y m d 0 0 0 0)) = toordinal now - ymd2ord y m d.
Proof.
  unfold valid_time, days, sub, us_per_day, seconds_of_day, toordinal. simpl.
  intros Hv. repeat (apply andb_prop in Hv as [Hv ?]).
  generalize (ymd2ord (year now) (month now) (day now)) as a.
  generalize (ymd2ord y m d) as b. intros b a.
  symmetry. apply (Z.div_unique_pos _ _ _
    ((second now + minute now * 60 + hour now * 3600) * 1000000 + microsecond now)); lia.
Qed.

Lemma expired_latest now keep : Store.expired now keep "latest" = false.
Proof. reflexivity. Qed.






(** What a call of [cleanup_old_files] does to the state: it never raises. *)
Lemma cleanup_old_files_run fs now keep s :
  Store.cleanup_old_files fs now keep s
  = let '(d, evs, err) := Store.cleanup_loop fs now keep (Store.images s) in
    (Ok tt,
     Store.mkState (Store.self s) (Store.heap s) d
       (Store.trace s ++ Store.IterDir :: evs
        ++ match err with
           | Some e => [Store.Log (Store.FailedToCleanup e)]
           | None => []
           end)).
Proof.
  run. destruct (Store.cleanup_loop fs now keep (Store.images s)) as [[d evs] err].
  destruct err; simpl; rewrite <- ?app_assoc; simpl; [done|].
  by rewrite app_nil_r.
Qed.


(** ** Saving *)

Lemma cleanup_loop_events fs now keep (d : Store.directory) :
  Forall (λ ev, Store.is_iterdir ev = false ∧ Store.is_write ev = false
                ∧ Store.disk_readings [ev] = [])
    (Store.cleanup_loop fs now keep d).1.2.
Proof.
  unfold Store.cleanup_loop. destruct (Store.iterdir_fault fs); [constructor|].
  induction d as [|[name e] d IH]; simpl; [constructor|].
  destruct (Store.cleanup_rounds fs now keep d) as [[d1 evs] err]. simpl in IH.
  crunch; auto; repeat constructor; auto.
Qed.

Lemma Forall_filter_nil {A} (P : A → Prop) `{!∀ x, Decision (P x)} (l : list A) :
  Forall (λ x, ¬ P x) l → filter P l = [].
Proof.
  induction 1 as [|x l Hx _ IH]; [done|].
  rewrite filter_cons. by rewrite decide_False.
Qed.



(** The quota check, case by case. *)
Lemma ensure_space_run env s :
  let st := Store.self s in
  let '(d, evs, err) :=
    Store.cleanup_loop (Store.cleanup_scan env) (Store.now_cleanup env) 7 (Store.images s) in
  let cleanup_events :=
    Store.IterDir :: evs
    ++ match err with
       | Some e => [Store.Log (Store.FailedToCleanup e)]
       | None => []
       end in
  let s2 :=
    Store.mkState st (Store.heap s) d
      (Store.trace s
       ++ Store.DiskUsage (Store.free_first env) :: cleanup_events
       ++ [Store.DiskUsage (Store.free_second env)]) in
  Store.ensure_space env s
  = if Store.max_storage_bytes st <? 10 * Store.free_first env then
      (Ok tt,
       Store.mkState st (Store.heap s) (Store.images s)
         (Store.trace s ++ [Store.DiskUsage (Store.free_first env)]))
    else if Store.max_storage_bytes st <? 10 * Store.free_second env then (Ok tt, s2)
    else (Raise (RuntimeError "Insufficient storage space"), s2).
Proof.
  destruct (Store.cleanup_loop _ _ _ _) as [[d evs] err] eqn:E.
  unfold Store.ensure_space, Store.check_storage_space, Store.bind, Store.ret,
    Store.gets, Store.emit, Store.modify, Store.raise. simpl.
  destruct (_ <? 10 * Store.free_first env); [done|].
  rewrite cleanup_old_files_run. simpl. rewrite E. simpl.
  destruct (_ <? 10 * Store.free_second env);
    rewrite <- ?app_assoc; simpl; rewrite <- ?app_assoc; done.
Qed.

(** A save that is not rate limited is the quota check, then the writes,
    with the handler of line 141 round both. *)
Lemma save_not_limited env l bbox s :
  Store.rate_limited (Store.self s) (Store.now_check env) = false →
  Store.save_detected_object env l bbox s
  = match Store.ensure_space env s with
    | (Ok _, s1) =>
        match Store.persist env (Store.now_check env) l bbox s1 with
        | (Ok b, s2) => (Ok b, s2)
        | (Raise e, s2) =>
            (Ok false,
             Store.mkState (Store.self s2) (Store.heap s2) (Store.images s2)
               (Store.trace s2 ++ [Store.Log (Store.FailedToSave e)]))
        end
    | (Raise e, s1) =>
        (Ok false,
         Store.mkState (Store.self s1) (Store.heap s1) (Store.images s1)
           (Store.trace s1 ++ [Store.Log (Store.FailedToSave e)]))
    end.
Proof.
  intros Hrl.
  unfold Store.save_detected_object, Store.save_body, Store.try_except,
    Store.bind at 1 2, Store.gets. simpl. rewrite Hrl.
  unfold Store.bind at 1.
  destruct (Store.ensure_space env s) as [[[]|e] s1]; [|done].
  destruct (Store.persist _ _ _ _ s1) as [[b|e] s2]; done.
Qed.


Lemma persist_outcome env t l bbox s :
  let r := Store.persist env t l bbox s in
  match r.1 with
  | Ok true =>
      Store.self r.2
      = Store.mkImageStorage (Store.max_storage_bytes (Store.self s)) (Some t)
          (Store.min_save_interval (Store.self s))
      ∧ Store.render_fault env = None
      ∧ (∀ e, Store.imwrite_fault env ≠ Store.Raised e)
      ∧ Store.json_fault env = None
  | Ok false => False
  | Raise _ => Store.self r.2 = Store.self s
  end.
Proof.
  destruct bbox as [[[x y] w] h]. run. crunch; done.
Qed.

Lemma persist_heap env t l bbox s l' (img : frame) :
  Store.heap s !! l' = Some img →
  Store.heap (Store.persist env t l bbox s).2 !! l' = Some img.
Proof.
  intros Hl'. pose proof (fresh_is_new _ _ _ Hl') as Hfresh.
  destruct bbox as [[[x y] w] h]. run. crunch; try done.
  all: simpl; by rewrite ?lookup_alter_ne, ?lookup_insert_ne by done.
Qed.

Lemma ensure_space_quiet env s :
  let r := Store.ensure_space env s in
  ∃ evs,
    Store.trace r.2 = Store.trace s ++ evs
    ∧ Forall (λ ev, Store.is_write ev = false) evs
    ∧ Store.heap r.2 = Store.heap s
    ∧ Store.self r.2 = Store.self s.
Proof.
  pose proof (ensure_space_run env s) as Hrun.
  pose proof (cleanup_loop_events (Store.cleanup_scan env) (Store.now_cleanup env) 7 (Store.images s)) as Hev.
  destruct (Store.cleanup_loop _ _ _ _) as [[d evs] err]. simpl in *.
  assert (Forall (λ ev, Store.is_write ev = false) evs) as Hw.
  { eapply Forall_impl; [exact Hev|]. by intros ev (_ & ? & _). }
  rewrite Hrun. crunch.
  all: eexists; split; [reflexivity|]; split; [|done].
  all: repeat first [ assumption
                    | apply Forall_nil_2
                    | apply Forall_cons_2; [done|]
                    | apply Forall_app_2 ].
Qed.

(** A save that went through wrote the metadata record last, next to the
    image path, and at most the image before it. *)
Lemma persist_success env t l (x y w h : Z) s f :
  Store.heap s !! l = Some f →
  (Store.persist env t l (x, y, w, h) s).1 = Ok true →
  let doc :=
    Store.metadata_of (strftime_id (Store.now_id env)) (isoformat (Store.now_iso env))
      (x, y, w, h) f in
  ∃ pre d,
    Store.trace (Store.persist env t l (x, y, w, h) s).2
    = Store.trace s
      ++ pre ++ [Store.WroteJson (Store.metadata_path env) doc;
                 Store.Log (Store.SavedFrame (Store.full_path env))]
    ∧ (pre = [] ∨ ∃ img, pre = [Store.WroteImage (Store.full_path env) img])
    ∧ Store.put_file d (Store.metadata_path env) (Store.JsonFile doc)
      = Some (Store.images (Store.persist env t l (x, y, w, h) s).2).
Proof.
  intros Hl. unfold Store.metadata_path, Store.full_path. run. rewrite Hl. simpl.
  crunch; intros; simplify_eq.
  all: simpl; rewrite <- ?app_assoc; simpl.
  all: first [ exists []; eexists; split; [reflexivity|]
             | eexists [_]; eexists; split; [reflexivity|] ].
  all: split; [by eauto|]; eassumption.
Qed.

Lemma save_limited env l bbox s :
  Store.rate_limited (Store.self s) (Store.now_check env) = true →
  (Store.save_detected_object env l bbox s).1 = Ok false.
Proof. intros Hrl. run. by rewrite Hrl. Qed.



(** The call returns a boolean: every exception is caught. *)
Lemma save_returns env l bbox s : ∃ b, (Store.save_detected_object env l bbox s).1 = Ok b.
Proof.
  destruct (Store.rate_limited (Store.self s) (Store.now_check env)) eqn:Hrl.
  - exists false. by apply save_limited.
  - rewrite save_not_limited by done.
    destruct (Store.ensure_space env s) as [[[]|e] s1]; [|by eexists].
    destruct (Store.persist _ _ _ _ s1) as [[b|e] s2]; by eexists.
Qed.

(** A save that returns [False] leaves the time of the last save as it
    was. *)
Lemma failed_save_keeps_timestamp env l bbox s :
  (Store.save_detected_object env l bbox s).1 = Ok false →
  Store.self (Store.save_detected_object env l bbox s).2 = Store.self s.
Proof.
  destruct (Store.rate_limited (Store.self s) (Store.now_check env)) eqn:Hrl.
  - intros _. run. by rewrite Hrl.
  - rewrite save_not_limited by done.
    destruct (ensure_space_quiet env s) as (evs & _ & _ & _ & Hself).
    destruct (Store.ensure_space env s) as [[[]|e] s1]; simpl in *; [|done].
    pose proof (persist_outcome env (Store.now_check env) l bbox s1) as Hp.
    destruct (Store.persist _ _ _ _ s1) as [[[|]|e] s2]; simpl in *; try done.
    congruence.
Qed.

(** An exception raised while drawing, by [imwrite] or while writing the
    metadata makes the save return [False]. *)
Lemma raised_fault_fails_save env l bbox s (e : exn) :
  Store.render_fault env = Some e ∨ Store.imwrite_fault env = Store.Raised e
  ∨ Store.json_fault env = Some e →
  (Store.save_detected_object env l bbox s).1 = Ok false.
Proof.
  intros Hfault.
  destruct (Store.rate_limited (Store.self s) (Store.now_check env)) eqn:Hrl.
  - by apply save_limited.
  - rewrite save_not_limited by done.
    destruct (Store.ensure_space env s) as [[[]|e0] s1]; [|done].
    pose proof (persist_outcome env (Store.now_check env) l bbox s1) as Hp.
    destruct (Store.persist _ _ _ _ s1) as [[[|]|e1] s2]; simpl in *; try done.
    destruct Hp as (_ & Hr & Hi & Hj).
    destruct Hfault as [?|[?|?]]; [congruence|by destruct (Hi e)|congruence].
Qed.

(** A save that returns [True] records the time read at its start, and
    changes nothing else of the store object. *)
Lemma successful_save_sets_timestamp env l bbox s :
  (Store.save_detected_object env l bbox s).1 = Ok true →
  Store.self (Store.save_detected_object env l bbox s).2
  = Store.mkImageStorage (Store.max_storage_bytes (Store.self s))
      (Some (Store.now_check env)) (Store.min_save_interval (Store.self s)).
Proof.
  destruct (Store.rate_limited (Store.self s) (Store.now_check env)) eqn:Hrl.
  - by rewrite save_limited.
  - rewrite save_not_limited by done.
    destruct (ensure_space_quiet env s) as (evs & _ & _ & _ & Hself).
    destruct (Store.ensure_space env s) as [[[]|e0] s1]; [|done].
    pose proof (persist_outcome env (Store.now_check env) l bbox s1) as Hp.
    destruct (Store.persist _ _ _ _ s1) as [[[|]|e1] s2]; simpl in *; try done.
    intros _. destruct Hp as [-> _]. by rewrite Hself.
Qed.

(** Two saves in a row: when the first returns [True] and the second starts
    less than the minimum interval after the first started, the second
    returns [False] and leaves the files and the store object as the first
    left them. *)
Lemma second_save_is_skipped env1 env2 l1 l2 bbox1 bbox2 s :
  (Store.save_detected_object env1 l1 bbox1 s).1 = Ok true →
  sub (Store.now_check env2) (Store.now_check env1)
    < Store.min_save_interval (Store.self s) * 1000000 →
  let s1 := (Store.save_detected_object env1 l1 bbox1 s).2 in
  let r := Store.save_detected_object env2 l2 bbox2 s1 in
  r.1 = Ok false ∧ Store.images r.2 = Store.images s1 ∧ Store.self r.2 = Store.self s1.
Proof.
  intros Hok Hdiff s1 r.
  pose proof (successful_save_sets_timestamp env1 l1 bbox1 s Hok) as Hself.
  fold s1 in Hself.
  assert (Store.rate_limited (Store.self s1) (Store.now_check env2) = true) as Hrl.
  { unfold Store.rate_limited, total_seconds_lt. rewrite Hself. simpl.
    by apply Z.ltb_lt. }
  subst r. rewrite (save_skips env2 l2 bbox2 s1 (Store.now_check env1)); [done| |done].
  by rewrite Hself.
Qed.

Lemma save_preserves_heap env l bbox s l' (img : frame) :
  Store.heap s !! l' = Some img →
  Store.heap (Store.save_detected_object env l bbox s).2 !! l' = Some img.
Proof.
  intros Hl'.
  destruct (Store.rate_limited (Store.self s) (Store.now_check env)) eqn:Hrl.
  - run. by rewrite Hrl.
  - rewrite save_not_limited by done.
    destruct (ensure_space_quiet env s) as (evs & _ & _ & Hheap & _).
    destruct (Store.ensure_space env s) as [[[]|e] s1]; simpl in *;
      [|by rewrite Hheap].
    rewrite <- Hheap in Hl'.
    pose proof (persist_heap env (Store.now_check env) l bbox s1 l' img Hl') as Hp.
    by destruct (Store.persist _ _ _ _ s1) as [[b|e] s2].
Qed.

(** [C5] A save that returns [True], of the region [(x, y, w, h)] on a
    frame [f], wrote one metadata record, last of its files and next to the
    image path (same bucket, same name but for the extension). The record
    has exactly four members: [object_id], a string; [timestamp], a string
    of ISO-8601 shape; [bbox], the region given, as [x], [y], [width],
    [height]; [frame_size], the width (the length of a row of [f]) and the
    height (the number of its rows). *)
Theorem saved_metadata_record env l (x y w h : Z) s f :
  Store.heap s !! l = Some f →
  (Store.save_detected_object env l (x, y, w, h) s).1 = Ok true →
  let r := Store.save_detected_object env l (x, y, w, h) s in
  let doc :=
    Store.JObject
      [("object_id", Store.JString (strftime_id (Store.now_id env)));
       ("timestamp", Store.JString (isoformat (Store.now_iso env)));
       ("bbox", Store.JObject [("x", Store.JNumber x); ("y", Store.JNumber y);
                               ("width", Store.JNumber w); ("height", Store.JNumber h)]);
       ("frame_size",
        Store.JObject
          [("width", Store.JNumber (Z.of_nat (length (default [] (head f)))));
           ("height", Store.JNumber (Z.of_nat (length f)))])] in
  ∃ before d,
    Store.trace r.2
    = Store.trace s
      ++ before ++ [Store.WroteJson (Store.metadata_path env) doc;
                    Store.Log (Store.SavedFrame (Store.full_path env))]
    ∧ (filter (λ ev, Store.is_write ev = true) before = []
       ∨ ∃ img, filter (λ ev, Store.is_write ev = true) before
                = [Store.WroteImage (Store.full_path env) img])
    ∧ Store.put_file d (Store.metadata_path env) (Store.JsonFile doc)
      = Some (Store.images r.2)
    ∧ Store.bucket (Store.metadata_path env) = Store.bucket (Store.full_path env)
    ∧ iso8601 (isoformat (Store.now_iso env)) = true.
Proof.
  intros Hl Hok r doc. subst r.
  destruct (Store.rate_limited (Store.self s) (Store.now_check env)) eqn:Hrl.
  { by rewrite save_limited in Hok. }
  rewrite save_not_limited in * by done.
  destruct (ensure_space_quiet env s) as (evs & Hevs & Hquiet & Hheap & _).
  destruct (Store.ensure_space env s) as [[[]|e] s1]; simpl in *; [|done].
  rewrite <- Hheap in Hl.
  pose proof (persist_success env (Store.now_check env) l x y w h s1 f Hl) as Hp.
  destruct (Store.persist _ _ _ _ s1) as [[[|]|e] s2]; simpl in *; try done.
  destruct (Hp eq_refl) as (pre & d & Htrace & Hpre & Hput).
  exists (evs ++ pre), d.
  split; [|split; [|split; [exact Hput|split; [reflexivity|]]]].
  - rewrite Htrace, Hevs. by rewrite <- !app_assoc.
  - rewrite filter_app. rewrite (Forall_filter_nil _ evs).
    2:{ eapply Forall_impl; [exact Hquiet|]. intros ev ->. done. }
    destruct Hpre as [->|[img ->]]; [by left|right]. by exists img.
  - apply isoformat_iso8601.
Qed.

End StoreProperties.

(** * The caller's frame *)

(** [C10] Neither [detect_objects] nor [save_detected_object] changes the
    frame it is given, nor any other array the caller holds: the boxes and
    the time stamp are drawn on copies made inside the call, at a location
    that was free before it. *)
Theorem caller_frame_is_never_mutated `{cv : OpenCV} `{ud : Unicode}
    (self : Detector.ObjectDetector) (heap : gmap loc frame)
    (env : Store.environment) (bbox : region) (s : Store.state) (l : loc) (f : frame) :
  heap !! l = Some f →
  Store.heap s !! l = Some f →
  let d := Detector.detect_objects self heap l in
  d.2 !! l = Some f
  ∧ (∀ regions processed_frame,
       d.1.1 = Ok (regions, processed_frame) → processed_frame ≠ l)
  ∧ Store.heap (Store.save_detected_object env l bbox s).2 !! l = Some f.
Proof.
  intros Hl Hs d. split; [|split].
  - by apply detect_objects_preserves_heap.
  - intros regions p Hd. subst d. unfold Detector.detect_objects in Hd.
    rewrite Hl in Hd. pose proof (fresh_is_new _ _ _ Hl) as Hfresh.
    destruct (Detector.background self) as [bg|]; simpl in Hd.
    + destruct (Detector.frame_delta bg _) as [delta|]; [|done].
      destruct (Detector.contours_of self delta); [|done].
      destruct (foldl _ _ _). simpl in Hd. congruence.
    + congruence.
  - by apply save_preserves_heap.
Qed.

(** * The properties at concrete inputs *)

Lemma omap_imap_none {A B} (g : nat → A → option B) (P : A → Prop) (l : list A) :
  (∀ i x, P x → g i x = None) → Forall P l → omap id (imap g l) = [].
Proof.
  intros Hg Hl. revert g Hg.
  induction Hl as [|x l Hx _ IH]; intros g Hg; simpl; [done|].
  rewrite Hg by done. simpl. apply IH. intros i y. apply Hg.
Qed.

Lemma concat_imap_nil {A B} (g : nat → A → list B) (P : A → Prop) (l : list A) :
  (∀ i x, P x → g i x = []) → Forall P l → concat (imap g l) = [].
Proof.
  intros Hg Hl. revert g Hg.
  induction Hl as [|x l Hx _ IH]; intros g Hg; simpl; [done|].
  rewrite Hg by done. simpl. apply IH. intros i y. apply Hg.
Qed.

(** The stand-in finds no contour in a mask without foreground. *)
Lemma sim_findContours_blank (mask : gray) : blank mask → Sim.findContours mask = [].
Proof.
  intros Hb. unfold Sim.findContours, Sim.foreground.
  rewrite (concat_imap_nil _ (Forall (eq 0))); [done| |exact Hb].
  intros r row Hrow. unfold Sim.foreground_row.
  apply (omap_imap_none _ (eq 0)); [|exact Hrow].
  by intros c v <-.
Qed.

Import Examples.

(** The first call on a grey frame of 3 by 3. *)
Lemma first_call_witness :
  heap0 !! 1%positive = Some frame0
  ∧ (Detector.detect_objects (cv:=Sim.cv) detector0 heap0 1%positive).1.1
    = Ok ([], 2%positive)
  ∧ Detector.background
      (Detector.detect_objects (cv:=Sim.cv) detector0 heap0 1%positive).1.2
    = Some (replicate 3 (replicate 3 (inject_Z 10))).
Proof.
  assert (heap0 !! 1%positive = Some frame0) as Hl by (vm_compute; reflexivity).
  split; [exact Hl|].
  destruct (first_call_initialises_background (cv:=Sim.cv) 500 30 21 2
              heap0 1%positive frame0 Hl) as [_ Hcall].
  unfold detector0. rewrite Hcall. split; vm_compute; reflexivity.
Defined.

(** The second call: a model of 10.6 and a frame of 10 blend to 10.48. *)
Lemma background_update_witness :
  ∃ bg',
    Detector.background
      (Detector.detect_objects (cv:=Sim.cv) detector1 heap0 1%positive).1.2 = Some bg'
    ∧ ∃ q, px_at bg' 0 0 = Some q ∧ (q == 1048 # 100)%Q.
Proof.
  destruct (background_update_every_call (cv:=Sim.cv) detector1 heap0 1%positive frame0
              (replicate 3 (replicate 3 (106 # 10)%Q))
              ltac:(reflexivity) ltac:(vm_compute; reflexivity) ltac:(reflexivity)
              ltac:(vm_compute; reflexivity) ltac:(vm_compute; reflexivity))
    as (regions & heap' & bg' & Hcall & _ & Hpx).
  exists bg'. rewrite Hcall. split; [reflexivity|].
  destruct (Hpx 0%nat 0%nat (106 # 10)%Q 10 ltac:(reflexivity) ltac:(reflexivity))
    as [Hq Hexact].
  eexists. split; [exact Hq|]. rewrite Hexact by reflexivity. reflexivity.
Defined.

(** The model 10.6 is compared as 11, not as 10: against a frame of 10 the
    difference is 1. *)
Lemma difference_witness :
  ∃ delta,
    Detector.frame_delta (replicate 3 (replicate 3 (106 # 10)%Q))
      (Detector.preprocess_frame (cv:=Sim.cv) detector1 frame0) = Some delta
    ∧ px_at delta 0 0 = Some 1.
Proof.
  destruct (difference_uses_rounded_background (cv:=Sim.cv) detector1 heap0 1%positive frame0
              (replicate 3 (replicate 3 (106 # 10)%Q))
              ltac:(reflexivity) ltac:(vm_compute; reflexivity) ltac:(reflexivity))
    as (delta & Hdelta & _ & Hpx).
  exists delta. split; [exact Hdelta|].
  destruct (Hpx 0%nat 0%nat (106 # 10)%Q 10 ltac:(reflexivity) ltac:(reflexivity)
              ltac:(vm_compute; discriminate) ltac:(vm_compute; discriminate) ltac:(lia))
    as (n & Hn & _ & Hup).
  rewrite Hn. rewrite (Hup ltac:(reflexivity)). reflexivity.
Defined.

(** A frame equal to the model, with the default threshold of 30. *)
Lemma static_scene_witness :
  (Detector.detect_objects (cv:=Sim.cv) detector2 heap0 1%positive).1.1
  = Ok ([], 2%positive).
Proof.
  rewrite (static_scene_yields_no_region (cv:=Sim.cv) detector2 heap0 1%positive frame0
             (replicate 3 (replicate 3 (10 # 1)%Q))
             sim_findContours_blank ltac:(simpl; lia) ltac:(vm_compute; reflexivity)
             ltac:(reflexivity)
             ltac:(vm_compute; reflexivity) ltac:(vm_compute; reflexivity)).
  vm_compute. reflexivity.
Defined.

(** [C9, as stated, fails] With a threshold of -1, a detector that has just
    taken a frame as its background model reports the whole of that same
    frame as a region: no pixel differs, and every difference, 0, exceeds
    the threshold. *)
Lemma negative_threshold_detects_static_scene :
  let first := Detector.detect_objects (cv:=Sim.cv) detector_neg heap30 1%positive in
  let self := first.1.2 in
  ∃ bg,
    Detector.background self = Some bg
    ∧ Detector.preprocess_frame (cv:=Sim.cv) self frame30 = convertScaleAbs bg
    ∧ (Detector.detect_objects (cv:=Sim.cv) self first.2 1%positive).1.1
      = Ok ([(0, 0, 30, 30)], 3%positive).
Proof.
  eexists. split; [vm_compute; reflexivity|]. split; vm_compute; reflexivity.
Qed.

(** A threshold of [2^31] is not negative, and is no C int: on x86-64 the
    least int stands in for it, every difference exceeds it, and the frame
    the detector has just taken as its model is reported whole. *)
Lemma threshold_beyond_int_detects_static_scene :
  let first := Detector.detect_objects (cv:=Sim.cv) detector_big heap30 1%positive in
  let self := first.1.2 in
  ∃ bg,
    Detector.background self = Some bg
    ∧ Detector.preprocess_frame (cv:=Sim.cv) self frame30 = convertScaleAbs bg
    ∧ (Detector.detect_objects (cv:=Sim.cv) self first.2 1%positive).1.1
      = Ok ([(0, 0, 30, 30)], 3%positive).
Proof.
  eexists. split; [vm_compute; reflexivity|]. split; vm_compute; reflexivity.
Qed.

(** [C7, as stated, fails] With a dilation count of -1 the call after the
    first raises at the dilation (line 79), before the update of line 100:
    the model is as it was, on a frame of its size. *)
Lemma negative_dilation_skips_the_update :
  let bg := replicate 3 (replicate 3 (106 # 10)%Q) in
  let r := Detector.detect_objects (cv:=Sim.cv) detector_undilated heap0 1%positive in
  Detector.background detector_undilated = Some bg
  ∧ heap0 !! 1%positive = Some frame0
  ∧ map length bg
    = map length (Detector.preprocess_frame (cv:=Sim.cv) detector_undilated frame0)
  ∧ (∃ e, r.1.1 = Raise e)
  ∧ Detector.background r.1.2 = Some bg.
Proof.
  repeat split; try (vm_compute; reflexivity).
  eexists. vm_compute. reflexivity.
Qed.

(** A save five seconds after the last one. *)
Lemma rate_limited_witness :
  (Store.save_detected_object (cv:=Sim.cv) (ud:=Sim.ud) env_ok 1%positive (0, 0, 2, 2) store1).1
  = Ok false
  ∧ Store.images (Store.save_detected_object (cv:=Sim.cv) (ud:=Sim.ud) env_ok 1%positive (0, 0, 2, 2) store1).2
    = images0
  ∧ Store.self (Store.save_detected_object (cv:=Sim.cv) (ud:=Sim.ud) env_ok 1%positive (0, 0, 2, 2) store1).2
    = Store.self store1.
Proof.
  destruct (rate_limited_save_is_skipped (cv:=Sim.cv) (ud:=Sim.ud) env_ok 1%positive (0, 0, 2, 2) store1
              (june1 10 0 0 0) ltac:(reflexivity) ltac:(vm_compute; reflexivity))
    as [Hcall _].
  rewrite Hcall. repeat split.
Defined.

(** [C3, the failing case] [cv2.imwrite] returns [False] and raises nothing;
    the metadata is written; the save returns [True], writes no image, and
    moves the time of the last save. *)
Theorem silent_imwrite_failure_counts_as_success :
  let r := Store.save_detected_object (cv:=Sim.cv) (ud:=Sim.ud) env_imwrite_false 1%positive
             (0, 0, 2, 2) store0 in
  r.1 = Ok true
  ∧ Store.last_save_timestamp (Store.self store0) = None
  ∧ Store.last_save_timestamp (Store.self r.2) = Some (june1 10 0 5 250)
  ∧ filter (λ ev, Store.is_write ev = true) (Store.trace r.2)
    = [Store.WroteJson
         (Store.mkPath "2024-06-01" "10-00-05_object_20240601_100005_000250.json")
         (Store.metadata_of "20240601_100005_000250" "2024-06-01T10:00:05.000250"
            (0, 0, 2, 2) frame0)].
Proof. repeat split; vm_compute; reflexivity. Qed.



(** A removal that fails stops the scan as well: the bucket it failed on is
    left with what it had not yet removed, and the expired bucket listed
    after it is still there. *)
Lemma cleanup_stops_at_failed_removal :
  let s1 := (Store.cleanup_old_files (ud:=Sim.ud) refusing (june1 10 0 0 0) 7 store_old).2 in
  Forall (λ ne, Store.expired_bucket (ud:=Sim.ud) (june1 10 0 0 0) 7 ne = true)
    (Store.images store_old)
  ∧ Store.images s1
    = [("2024-05-20", Store.EDir {[ "a.json" := Store.JsonFile (Store.JNumber 0) ]});
       ("2024-05-21", Store.EDir ∅)]
  ∧ Store.trace s1
    = [Store.IterDir; Store.Log (Store.FailedToCleanup (OSError "Permission denied"))].
Proof. repeat split; try (repeat constructor); vm_compute; reflexivity. Qed.

(** A save that goes through, and its record. *)
Lemma saved_metadata_witness :
  (Store.save_detected_object (cv:=Sim.cv) (ud:=Sim.ud) env_ok 1%positive (0, 0, 2, 2) store0).1 = Ok true
  ∧ ∃ before,
      Store.trace (Store.save_detected_object (cv:=Sim.cv) (ud:=Sim.ud) env_ok 1%positive (0, 0, 2, 2) store0).2
      = before
        ++ [Store.WroteJson
              (Store.mkPath "2024-06-01" "10-00-05_object_20240601_100005_000250.json")
              (Store.JObject
                 [("object_id", Store.JString "20240601_100005_000250");
                  ("timestamp", Store.JString "2024-06-01T10:00:05.000250");
                  ("bbox", Store.JObject [("x", Store.JNumber 0); ("y", Store.JNumber 0);
                                          ("width", Store.JNumber 2); ("height", Store.JNumber 2)]);
                  ("frame_size", Store.JObject [("width", Store.JNumber 3);
                                                ("height", Store.JNumber 3)])]);
            Store.Log (Store.SavedFrame
              (Store.mkPath "2024-06-01" "10-00-05_object_20240601_100005_000250.jpg"))].
Proof.
  assert ((Store.save_detected_object (cv:=Sim.cv) (ud:=Sim.ud) env_ok 1%positive (0, 0, 2, 2) store0).1
          = Ok true) as Hok by (vm_compute; reflexivity).
  split; [exact Hok|].
  destruct (saved_metadata_record (cv:=Sim.cv) (ud:=Sim.ud) env_ok 1%positive 0 0 2 2 store0 frame0
              ltac:(vm_compute; reflexivity) Hok)
    as (before & d & Htrace & _).
  exists before. rewrite Htrace. reflexivity.
Defined.


(** The frame after a detection that draws a box and after a save. *)
Lemma caller_frame_witness :
  (Detector.detect_objects (cv:=Sim.cv) detector2 heap0 1%positive).2 !! 1%positive
  = Some frame0
  ∧ Store.heap (Store.save_detected_object (cv:=Sim.cv) (ud:=Sim.ud) env_ok 1%positive (0, 0, 2, 2) store0).2
    !! 1%positive = Some frame0.
Proof.
  destruct (caller_frame_is_never_mutated (cv:=Sim.cv) (ud:=Sim.ud) detector2 heap0 env_ok (0, 0, 2, 2)
              store0 1%positive frame0
              ltac:(vm_compute; reflexivity) ltac:(vm_compute; reflexivity))
    as (Hd & _ & Hs).
  split; [exact Hd|exact Hs].
Defined.

(** * Further properties of the store, the detector and the loop *)

(** ** Names and dates *)

(** Abstracts the digits of a formatted number, keeping [fact] of each. *)
Ltac abstract_digits fact :=
  repeat match goal with
  | |- context [digit_char ?n] =>
      generalize (fact n); generalize (digit_char n);
      let c := fresh "c" in let H := fresh "Hc" in intros c H
  end.

Section Parsing.
Context `{ud : Unicode}.

Lemma digit_val_digit_char (n : Z) : digit_val (digit_char n) = Some (n mod 10).
Proof.
  unfold digit_char.
  pose proof (Z.mod_pos_bound n 10 eq_refl) as Hk.
  generalize dependent (n mod 10). intros m Hm.
  assert (m = 0 ∨ m = 1 ∨ m = 2 ∨ m = 3 ∨ m = 4 ∨ m = 5 ∨ m = 6 ∨ m = 7 ∨ m = 8 ∨ m = 9)
    as Hcases by lia.
  repeat (destruct Hcases as [->|Hcases]; [reflexivity|]). by subst m.
Qed.

(** A digit that [strftime] prints is read as itself: it is an ASCII
    digit. *)
Lemma any_digit_digit_char (n : Z) (rest : string) :
  any_digit (String (digit_char n) rest) = Some (n mod 10, rest).
Proof.
  unfold digit_char.
  pose proof (Z.mod_pos_bound n 10 eq_refl) as Hk.
  generalize dependent (n mod 10). intros m Hm.
  assert (m = 0 ∨ m = 1 ∨ m = 2 ∨ m = 3 ∨ m = 4 ∨ m = 5 ∨ m = 6 ∨ m = 7 ∨ m = 8 ∨ m = 9)
    as Hcases by lia.
  repeat (destruct Hcases as [->|Hcases]; [reflexivity|]). by subst m.
Qed.

Lemma parse_year_zpad (y : Z) (rest : string) :
  0 ≤ y ≤ 9999 → parse_year (zpad 4 y +:+ rest) = Some (y, rest).
Proof.
  intros Hy.
  assert (1000 * ((((y / 10) / 10) / 10) mod 10) + 100 * (((y / 10) / 10) mod 10)
          + 10 * ((y / 10) mod 10) + y mod 10 = y) as Hsum.
  { Z.to_euclidean_division_equations. lia. }
  assert (zpad 4 y +:+ rest
          = String (digit_char (((y / 10) / 10) / 10))
              (String (digit_char ((y / 10) / 10))
                 (String (digit_char (y / 10)) (String (digit_char y) rest)))) as ->
    by reflexivity.
  unfold parse_year.
  do 4 (rewrite any_digit_digit_char; cbv beta iota).
  by rewrite Hsum.
Qed.

(** Every month and day, printed with two digits, is read back. *)
Lemma month_day_table :
  forallb (λ m,
    forallb (λ d,
      bool_decide (match_month_day (month_alts (zpad 2 m +:+ "-" +:+ zpad 2 d))
                   = Some (m, d, "")))
      (seqZ 1 31))
    (seqZ 1 12) = true.
Proof. vm_compute. reflexivity. Qed.

Lemma match_month_day_zpad (m d : Z) :
  1 ≤ m ≤ 12 → 1 ≤ d ≤ 31 →
  match_month_day (month_alts (zpad 2 m +:+ "-" +:+ zpad 2 d)) = Some (m, d, "").
Proof.
  intros Hm Hd. pose proof month_day_table as Ht.
  rewrite forallb_forall in Ht.
  specialize (Ht m). rewrite <- list_elem_of_In, elem_of_seqZ in Ht.
  specialize (Ht ltac:(lia)). rewrite forallb_forall in Ht.
  specialize (Ht d). rewrite <- list_elem_of_In, elem_of_seqZ in Ht.
  specialize (Ht ltac:(lia)). by apply bool_decide_eq_true in Ht.
Qed.

Lemma days_in_month_le_31 (y m : Z) : days_in_month y m ≤ 31.
Proof.
  unfold days_in_month. destruct ((m =? 2) && is_leap y); [lia|].
  destruct (Z.to_nat m) as [|k]; [simpl; lia|].
  do 12 (destruct k as [|k]; [simpl; lia|]). destruct k; simpl; lia.
Qed.

Lemma strptime_date_year (y : Z) (s : string) :
  0 ≤ y ≤ 9999 →
  strptime_date (zpad 4 y +:+ "-" +:+ s)
  = match match_month_day (month_alts s) with
    | Some (m, d, EmptyString) =>
        if valid_date y m d then Some (mkDatetime y m d 0 0 0 0) else None
    | _ => None
    end.
Proof.
  intros Hy. unfold strptime_date. rewrite parse_year_zpad by done. reflexivity.
Qed.

(** The name [strftime("%Y-%m-%d")] prints is read back by
    [strptime(name, "%Y-%m-%d")] as the same date, at midnight. *)
Lemma strptime_of_strftime (t : datetime) :
  valid_date (year t) (month t) (day t) = true →
  strptime_date (strftime_date t) = Some (mkDatetime (year t) (month t) (day t) 0 0 0 0).
Proof.
  intros Hv. pose proof Hv as Hv'. unfold valid_date in Hv'.
  repeat (apply andb_prop in Hv' as [Hv' ?]).
  pose proof (days_in_month_le_31 (year t) (month t)).
  unfold strftime_date.
  rewrite strptime_date_year by lia.
  rewrite match_month_day_zpad by lia. by rewrite Hv.
Qed.

(** [X1] The bucket of the path [generate_filename] builds is named so that
    the retention scan reads the name back as the date of the save: for
    every date of a year of four digits (which [strftime] prints in full),
    [strptime] of the bucket name is that date at midnight. *)
Theorem bucket_name_reads_back_as_its_date (t_name t_bucket : datetime) (object_id : string) :
  valid_date (year t_bucket) (month t_bucket) (day t_bucket) = true →
  1000 ≤ year t_bucket →
  strptime_date (Store.bucket (Store.generate_filename t_name t_bucket object_id).2)
  = Some (mkDatetime (year t_bucket) (month t_bucket) (day t_bucket) 0 0 0 0).
Proof. intros Hv _. simpl. by apply strptime_of_strftime. Qed.


(** [X2] A bucket made on the date of [t] is expired, for a cleanup that
    runs at [now] with a window of [days_to_keep] days, exactly when more
    than [days_to_keep] calendar days lie between the two dates; the times
    of day play no part. (The year of [t] has four digits.) *)
Theorem bucket_expires_by_calendar_days (now t : datetime) (days_to_keep : Z) :
  valid_date (year t) (month t) (day t) = true →
  1000 ≤ year t →
  valid_time now = true →
  Store.expired now days_to_keep (strftime_date t)
  = (days_to_keep <? toordinal now - toordinal t).
Proof.
  intros Hv _ Hnow. unfold Store.expired.
  rewrite strptime_of_strftime by done.
  by rewrite age_in_whole_days.
Qed.


End Parsing.

Lemma bucket_name_witness :
  strptime_date (ud:=Sim.ud)
    (Store.bucket (Store.generate_filename (june1 10 0 5 250) (june1 10 0 5 250) "x").2)
  = Some (mkDatetime 2024 6 1 0 0 0 0).
Proof.
  exact (bucket_name_reads_back_as_its_date (ud:=Sim.ud) (june1 10 0 5 250) (june1 10 0 5 250) "x"
           ltac:(vm_compute; reflexivity) ltac:(simpl; lia)).
Defined.

Lemma bucket_expires_witness :
  Store.expired (ud:=Sim.ud) (june1 10 0 0 0) 7 (strftime_date (mkDatetime 2024 5 24 23 59 59 0)) = true
  ∧ Store.expired (ud:=Sim.ud) (june1 10 0 0 0) 7 (strftime_date (mkDatetime 2024 5 25 0 0 0 0)) = false.
Proof.
  split.
  - rewrite (bucket_expires_by_calendar_days (ud:=Sim.ud) (june1 10 0 0 0)
               (mkDatetime 2024 5 24 23 59 59 0) 7
               ltac:(vm_compute; reflexivity) ltac:(simpl; lia)
               ltac:(vm_compute; reflexivity)).
    vm_compute. reflexivity.
  - rewrite (bucket_expires_by_calendar_days (ud:=Sim.ud) (june1 10 0 0 0)
               (mkDatetime 2024 5 25 0 0 0 0) 7
               ltac:(vm_compute; reflexivity) ltac:(simpl; lia)
               ltac:(vm_compute; reflexivity)).
    vm_compute. reflexivity.
Defined.

Lemma digit_char_inj (a b : Z) : digit_char a = digit_char b → a mod 10 = b mod 10.
Proof.
  intros H. apply (f_equal digit_val) in H.
  rewrite !digit_val_digit_char in H. congruence.
Qed.

Lemma two_digits_inj (a b : Z) :
  0 ≤ a < 100 → 0 ≤ b < 100 →
  (a / 10) mod 10 = (b / 10) mod 10 → a mod 10 = b mod 10 → a = b.
Proof. intros. Z.to_euclidean_division_equations. lia. Qed.

Lemma four_digits_inj (a b : Z) :
  0 ≤ a < 10000 → 0 ≤ b < 10000 →
  (((a / 10) / 10) / 10) mod 10 = (((b / 10) / 10) / 10) mod 10 →
  ((a / 10) / 10) mod 10 = ((b / 10) / 10) mod 10 →
  (a / 10) mod 10 = (b / 10) mod 10 → a mod 10 = b mod 10 → a = b.
Proof.
  intros Ha Hb H3 H2 H1 H0.
  assert (a / 100 = b / 100) as Hhi.
  { apply two_digits_inj.
    - Z.to_euclidean_division_equations. lia.
    - Z.to_euclidean_division_equations. lia.
    - rewrite <- !(Z.div_div _ 10 10) by lia.
      replace (100 / 10) with 10 by reflexivity. exact H3.
    - rewrite <- !(Z.div_div _ 10 10) by lia. exact H2. }
  assert (a mod 100 = b mod 100) as Hlo.
  { assert (a mod 100 = 10 * ((a / 10) mod 10) + a mod 10) as ->
      by (Z.to_euclidean_division_equations; lia).
    assert (b mod 100 = 10 * ((b / 10) mod 10) + b mod 10) as ->
      by (Z.to_euclidean_division_equations; lia).
    lia. }
  rewrite (Z.div_mod a 100), (Z.div_mod b 100) by lia. lia.
Qed.

Lemma six_digits_sum (a : Z) :
  0 ≤ a < 1000000 →
  a = 100000 * ((((((a / 10) / 10) / 10) / 10) / 10) mod 10)
      + 10000 * (((((a / 10) / 10) / 10) / 10) mod 10)
      + 1000 * ((((a / 10) / 10) / 10) mod 10)
      + 100 * (((a / 10) / 10) mod 10)
      + 10 * ((a / 10) mod 10) + a mod 10.
Proof. intros Ha. Z.to_euclidean_division_equations. lia. Qed.

Lemma four_digits_sum (a : Z) :
  0 ≤ a < 10000 →
  a = 1000 * ((((a / 10) / 10) / 10) mod 10) + 100 * (((a / 10) / 10) mod 10)
      + 10 * ((a / 10) mod 10) + a mod 10.
Proof. intros Ha. Z.to_euclidean_division_equations. lia. Qed.

Lemma two_digits_sum (a : Z) :
  0 ≤ a < 100 → a = 10 * ((a / 10) mod 10) + a mod 10.
Proof. intros Ha. Z.to_euclidean_division_equations. lia. Qed.

(** The fields of a date and time the constructor of [datetime] accepts fit
    the widths they are printed in. *)
Lemma valid_fields (t : datetime) :
  valid_date (year t) (month t) (day t) = true → valid_time t = true →
  0 ≤ year t < 10000 ∧ 0 ≤ month t < 100 ∧ 0 ≤ day t < 100
  ∧ 0 ≤ hour t < 100 ∧ 0 ≤ minute t < 100 ∧ 0 ≤ second t < 100
  ∧ 0 ≤ microsecond t < 1000000.
Proof.
  unfold valid_date, valid_time. intros Hd Ht.
  repeat (apply andb_prop in Hd as [Hd ?]). repeat (apply andb_prop in Ht as [Ht ?]).
  pose proof (days_in_month_le_31 (year t) (month t)). lia.
Qed.

Local Arguments digit_char : simpl never.

(** Two valid times with the same [strftime("%Y%m%d_%H%M%S_%f")] are the
    same time. *)
Lemma strftime_id_inj (t1 t2 : datetime) :
  valid_date (year t1) (month t1) (day t1) = true → valid_time t1 = true →
  valid_date (year t2) (month t2) (day t2) = true → valid_time t2 = true →
  strftime_id t1 = strftime_id t2 → t1 = t2.
Proof.
  intros Hd1 Ht1 Hd2 Ht2 Hid.
  destruct (valid_fields t1 Hd1 Ht1) as (Hy1 & Hm1 & Hday1 & Hh1 & Hmin1 & Hs1 & Hus1).
  destruct (valid_fields t2 Hd2 Ht2) as (Hy2 & Hm2 & Hday2 & Hh2 & Hmin2 & Hs2 & Hus2).
  unfold strftime_id in Hid. simpl in Hid.
  injection Hid as E1 E2 E3 E4 E5 E6 E7 E8 E9 E10 E11 E12 E13 E14 E15 E16 E17 E18 E19 E20.
  repeat match goal with H : digit_char _ = digit_char _ |- _ => apply digit_char_inj in H end.
  destruct t1 as [y1 m1 d1 h1 mi1 s1 u1], t2 as [y2 m2 d2 h2 mi2 s2 u2]. simpl in *.
  f_equal.
  - rewrite (four_digits_sum y1), (four_digits_sum y2) by done. congruence.
  - rewrite (two_digits_sum m1), (two_digits_sum m2) by done. congruence.
  - rewrite (two_digits_sum d1), (two_digits_sum d2) by done. congruence.
  - rewrite (two_digits_sum h1), (two_digits_sum h2) by done. congruence.
  - rewrite (two_digits_sum mi1), (two_digits_sum mi2) by done. congruence.
  - rewrite (two_digits_sum s1), (two_digits_sum s2) by done. congruence.
  - rewrite (six_digits_sum u1), (six_digits_sum u2) by done. congruence.
Qed.

Lemma metadata_name (env : Store.environment) :
  Store.name (Store.metadata_path env)
  = strftime_hms_dash (Store.now_name env) +:+ "_object_"
    +:+ strftime_id (Store.now_id env) +:+ ".json".
Proof.
  unfold Store.metadata_path, Store.full_path, Store.generate_filename,
    strftime_hms_dash, strftime_id.
  cbn [zpad]. abstract_digits is_digit_digit_char. reflexivity.
Qed.

(** [X3] The metadata file of a save is named as its image, with [.json]
    in place of [.jpg], and lies in the same bucket: the time-stamped name
    holds no other dot for [with_suffix] to cut at. The two paths differ. *)
Theorem metadata_path_swaps_the_extension (env : Store.environment) :
  let hms := strftime_hms_dash (Store.now_name env) in
  let id := strftime_id (Store.now_id env) in
  Store.name (Store.full_path env) = hms +:+ "_object_" +:+ id +:+ ".jpg"
  ∧ Store.name (Store.metadata_path env) = hms +:+ "_object_" +:+ id +:+ ".json"
  ∧ Store.bucket (Store.metadata_path env) = Store.bucket (Store.full_path env)
  ∧ Store.metadata_path env ≠ Store.full_path env.
Proof.
  intros hms id. split; [reflexivity|]. split; [apply metadata_name|].
  split; [reflexivity|].
  intros Heq. apply (f_equal (λ p, String.length (Store.name p))) in Heq.
  rewrite metadata_name in Heq.
  unfold Store.full_path, Store.generate_filename in Heq.
  simpl in Heq. revert Heq.
  unfold strftime_hms_dash, strftime_id. cbn [zpad].
  abstract_digits is_digit_digit_char. simpl. discriminate.
Qed.

(** [X4] Two saves that read different times for their ids write to
    different image files and to different metadata files: the id printed
    to the microsecond tells valid times apart. (The years have four
    digits.) *)
Theorem different_ids_give_different_files (env1 env2 : Store.environment) :
  let t1 := Store.now_id env1 in
  let t2 := Store.now_id env2 in
  valid_date (year t1) (month t1) (day t1) = true → valid_time t1 = true →
  valid_date (year t2) (month t2) (day t2) = true → valid_time t2 = true →
  1000 ≤ year t1 → 1000 ≤ year t2 →
  t1 ≠ t2 →
  Store.full_path env1 ≠ Store.full_path env2
  ∧ Store.metadata_path env1 ≠ Store.metadata_path env2.
Proof.
  intros t1 t2 Hd1 Ht1 Hd2 Ht2 _ _ Hne.
  assert (∀ p : Store.environment → Store.path,
            (∀ env, ∃ sfx, Store.name (p env)
               = strftime_hms_dash (Store.now_name env) +:+ "_object_"
                 +:+ strftime_id (Store.now_id env) +:+ sfx) →
            p env1 ≠ p env2) as Hpath.
  { intros p Hp Heq. apply Hne, strftime_id_inj; try done.
    apply (f_equal Store.name) in Heq.
    destruct (Hp env1) as [sfx1 H1], (Hp env2) as [sfx2 H2].
    rewrite H1, H2 in Heq. clear H1 H2.
    unfold strftime_hms_dash, strftime_id in Heq. simpl in Heq.
    injection Heq; intros. unfold strftime_id. simpl. subst t1 t2. congruence. }
  split; apply Hpath; intros env; eexists.
  - reflexivity.
  - apply metadata_name.
Qed.

(** ** The outcome of a save *)

Section StoreMore.
Context `{cv : OpenCV} `{ud : Unicode}.

Implicit Types (s : Store.state) (env : Store.environment) (l : loc) (bbox : region).

Arguments Store.persist : simpl never.
Arguments Store.ensure_space : simpl never.
Arguments Store.cleanup_old_files : simpl never.
Arguments Store.save_detected_object : simpl never.

(** The files a call of [persist] writes: the metadata exactly when it
    returns [True], and at most one image. *)
Lemma persist_writes env t l bbox s :
  let r := Store.persist env t l bbox s in
  ∃ evs,
    Store.trace r.2 = Store.trace s ++ evs
    ∧ length (filter (λ ev, Loop.is_metadata_write ev = true) evs)
      = match r.1 with Ok true => 1%nat | _ => 0%nat end
    ∧ (length (filter (λ ev, Loop.is_image_write ev = true) evs) ≤ 1)%nat
    ∧ Forall (λ ev, Loop.is_rmtree ev = false) evs.
Proof.
  destruct bbox as [[[x y] w] h]. run. crunch.
  all: suffix ltac:(split; [reflexivity|split; [simpl; lia|by repeat constructor]]).
Qed.

Lemma ensure_space_writes env s :
  let r := Store.ensure_space env s in
  ∃ evs,
    Store.trace r.2 = Store.trace s ++ evs
    ∧ filter (λ ev, Loop.is_metadata_write ev = true) evs = []
    ∧ filter (λ ev, Loop.is_image_write ev = true) evs = [].
Proof.
  destruct (ensure_space_quiet env s) as (evs & Hevs & Hquiet & _).
  exists evs. split; [done|].
  split; apply Forall_filter_nil; (eapply Forall_impl; [exact Hquiet|]);
    intros [] Hw; simpl in *; congruence.
Qed.

(** A save, its result and its files: never an exception, one metadata
    record when it returns [True] and none otherwise, at most one image. *)
Lemma save_metadata_count env l bbox s :
  let r := Store.save_detected_object env l bbox s in
  ∃ (b : bool) evs,
    r.1 = Ok b
    ∧ Store.trace r.2 = Store.trace s ++ evs
    ∧ length (filter (λ ev, Loop.is_metadata_write ev = true) evs)
      = (if b then 1%nat else 0%nat)
    ∧ (length (filter (λ ev, Loop.is_image_write ev = true) evs) ≤ 1)%nat.
Proof.
  intros r. subst r.
  destruct (Store.rate_limited (Store.self s) (Store.now_check env)) eqn:Hrl.
  { exists false. run. rewrite Hrl. simpl. eexists. split; [done|].
    split; [reflexivity|]. split; [reflexivity|]. simpl. lia. }
  rewrite save_not_limited by done.
  destruct (ensure_space_writes env s) as (evs & Hevs & Hm & Hi).
  destruct (Store.ensure_space env s) as [[[]|e] s1]; simpl in *.
  - destruct (persist_writes env (Store.now_check env) l bbox s1)
      as (pevs & Hp & Hpm & Hpi & _).
    destruct (Store.persist _ _ _ _ s1) as [[b|e] s2]; simpl in *.
    + exists b, (evs ++ pevs). split; [done|].
      split; [by rewrite Hp, Hevs, <- app_assoc|].
      rewrite !filter_app, Hm, Hi. simpl. split; [by destruct b|done].
    + exists false, (evs ++ pevs ++ [Store.Log (Store.FailedToSave e)]).
      split; [done|]. split; [by rewrite Hp, Hevs, <- !app_assoc|].
      rewrite !filter_app, Hm, Hi. simpl.
      rewrite !length_app. simpl. rewrite Hpm. split; lia.
  - exists false, (evs ++ [Store.Log (Store.FailedToSave e)]).
    split; [done|]. split; [by rewrite Hevs, <- app_assoc|].
    rewrite !filter_app, Hm, Hi. simpl. split; [reflexivity|lia].
Qed.

(** [X5] [save_detected_object] never raises: it returns [True] or
    [False]. It returns [True] exactly when the write of the metadata
    record went through; it never writes two records, nor two images. (An
    image without its record is left behind only by a call that returns
    [False].) *)
Theorem save_returns_true_iff_metadata_written env l bbox s :
  let r := Store.save_detected_object env l bbox s in
  ∃ (b : bool) evs,
    r.1 = Ok b
    ∧ Store.trace r.2 = Store.trace s ++ evs
    ∧ (b = true ↔ ∃ p doc, Store.WroteJson p doc ∈ evs)
    ∧ (length (filter (λ ev, Loop.is_metadata_write ev = true) evs) ≤ 1)%nat
    ∧ (length (filter (λ ev, Loop.is_image_write ev = true) evs) ≤ 1)%nat.
Proof.
  intros r. destruct (save_metadata_count env l bbox s) as (b & evs & Hb & Ht & Hm & Hi).
  exists b, evs. split; [done|]. split; [done|]. split; [|split; [destruct b; lia|done]].
  split.
  - intros ->.
    destruct (filter (λ ev, Loop.is_metadata_write ev = true) evs) as [|ev rest] eqn:E;
      [done|].
    assert (ev ∈ filter (λ ev, Loop.is_metadata_write ev = true) evs) as Hin
      by (rewrite E; left).
    apply list_elem_of_filter in Hin as [Hev Hin].
    destruct ev; try done. eauto.
  - intros (p & doc & Hin). destruct b; [done|].
    assert (Store.WroteJson p doc ∈ filter (λ ev, Loop.is_metadata_write ev = true) evs)
      as Hin' by (by apply list_elem_of_filter).
    destruct (filter _ evs); [by apply elem_of_nil in Hin'|done].
Qed.

(** [X6] The store object changes in one way only: a call that returns
    [True] sets the time of the last save to the time read at its start.
    A call that returns [False] leaves it; the storage budget and the
    minimum interval never change. *)
Theorem store_object_changes_only_on_success env l bbox s :
  let r := Store.save_detected_object env l bbox s in
  Store.max_storage_bytes (Store.self r.2) = Store.max_storage_bytes (Store.self s)
  ∧ Store.min_save_interval (Store.self r.2) = Store.min_save_interval (Store.self s)
  ∧ Store.last_save_timestamp (Store.self r.2)
    = match r.1 with
      | Ok true => Some (Store.now_check env)
      | _ => Store.last_save_timestamp (Store.self s)
      end.
Proof.
  intros r. subst r.
  destruct (save_returns env l bbox s) as [[|] Hb]; rewrite Hb.
  - by rewrite (successful_save_sets_timestamp env l bbox s Hb).
  - by rewrite (failed_save_keeps_timestamp env l bbox s Hb).
Qed.

(** ** Cleanup in any state *)

Lemma left_of_subseteq (files : gmap string Store.file) (gone : list string) :
  Store.left_of files gone ⊆ files.
Proof.
  unfold Store.left_of. induction gone as [|n gone IH]; simpl; [done|].
  etrans; [apply delete_subseteq|exact IH].
Qed.

(** The names a scan leaves are names it found, in their order. *)
Lemma cleanup_loop_names fs now keep (d : Store.directory) :
  Loop.names (Store.cleanup_loop fs now keep d).1.1 `sublist_of` Loop.names d.
Proof.
  unfold Store.cleanup_loop. destruct (Store.iterdir_fault fs); [done|].
  unfold Loop.names.
  induction d as [|[name e] d IH]; simpl; [constructor|].
  destruct (Store.cleanup_rounds fs now keep d) as [[d1 evs] err]. simpl in IH.
  crunch; rewrite ?fmap_cons; simpl;
    try (by apply sublist_skip); try (by apply sublist_cons); done.
Qed.

(** An entry that is not an expired bucket is left as it is. *)
Lemma cleanup_loop_keeps fs now keep (d : Store.directory) (ne : string * Store.entry) :
  ne ∈ d → Store.expired_bucket now keep ne = false →
  ne ∈ (Store.cleanup_loop fs now keep d).1.1.
Proof.
  unfold Store.cleanup_loop. destruct (Store.iterdir_fault fs); [done|].
  intros Hin Hne. induction d as [|[name e] d IH]; [by apply elem_of_nil in Hin|].
  apply elem_of_cons in Hin as [->|Hin].
  - unfold Store.expired_bucket, Store.expired in Hne. simpl in *.
    destruct (Store.cleanup_rounds fs now keep d) as [[d1 evs] err].
    crunch; rewrite ?elem_of_cons; auto.
  - specialize (IH Hin). simpl.
    destruct (Store.cleanup_rounds fs now keep d) as [[d1 evs] err]. simpl in IH.
    crunch; rewrite ?elem_of_cons; auto.
Qed.

(** An entry a scan leaves was there as it is, or is what a failed removal
    has left of an expired bucket. *)
Lemma cleanup_loop_origin fs now keep (d : Store.directory) (ne : string * Store.entry) :
  ne ∈ (Store.cleanup_loop fs now keep d).1.1 →
  ne ∈ d
  ∨ ∃ files files',
      (ne.1, Store.EDir files) ∈ d
      ∧ Store.expired_bucket now keep (ne.1, Store.EDir files) = true
      ∧ ne.2 = Store.EDir files' ∧ files' ⊆ files.
Proof.
  unfold Store.cleanup_loop. destruct (Store.iterdir_fault fs); [by left|].
  induction d as [|[name e] d IH]; simpl; [by left|].
  destruct (Store.cleanup_rounds fs now keep d) as [[d1 evs] err]. simpl in IH.
  assert (ne ∈ d1 →
          ne ∈ (name, e) :: d
          ∨ ∃ files files',
              (ne.1, Store.EDir files) ∈ (name, e) :: d
              ∧ Store.expired_bucket now keep (ne.1, Store.EDir files) = true
              ∧ ne.2 = Store.EDir files' ∧ files' ⊆ files) as Hrest.
  { intros Hin. destruct (IH Hin) as [?|(files & files' & ? & ? & ? & ?)].
    - left. by right.
    - right. exists files, files'. split; [by right|done]. }
  assert (∀ files gone,
            e = Store.EDir files → Store.expired now keep name = true →
            ne = (name, Store.EDir (Store.left_of files gone)) →
            ne ∈ (name, e) :: d
            ∨ ∃ files0 files',
                (ne.1, Store.EDir files0) ∈ (name, e) :: d
                ∧ Store.expired_bucket now keep (ne.1, Store.EDir files0) = true
                ∧ ne.2 = Store.EDir files' ∧ files' ⊆ files0) as Hleft.
  { intros files gone -> Hexp ->. right. exists files, (Store.left_of files gone).
    simpl. split; [left|]. split; [exact Hexp|]. split; [done|].
    apply left_of_subseteq. }
  unfold Store.expired in Hleft.
  crunch; intros Hin.
  all: repeat match goal with
       | H : _ ∈ _ :: _ |- _ => apply elem_of_cons in H as [->|H]
       end.
  all: try (by apply Hrest).
  all: try (by left; left).
  all: try (by left; right).
  all: eapply Hleft; done.
Qed.

(** [X7] In every state of the images directory, and whatever the file
    system answers, cleanup never raises and takes nothing away but from
    real directories whose name is a date more than [days_to_keep] days
    back: every other entry is there afterwards as it was, the names left
    are names found, in their order, and an entry that has changed is what a
    failed removal has left of such a bucket. The store object and the
    caller's arrays are as before. *)
Theorem cleanup_only_removes_expired_buckets fs now keep s :
  let r := Store.cleanup_old_files fs now keep s in
  r.1 = Ok tt
  ∧ Store.self r.2 = Store.self s
  ∧ Store.heap r.2 = Store.heap s
  ∧ Loop.names (Store.images r.2) `sublist_of` Loop.names (Store.images s)
  ∧ (∀ ne, ne ∈ Store.images s →
           ne ∈ Store.images r.2 ∨ Store.expired_bucket now keep ne = true)
  ∧ (∀ ne, ne ∈ Store.images r.2 →
           ne ∈ Store.images s
           ∨ ∃ files files',
               (ne.1, Store.EDir files) ∈ Store.images s
               ∧ Store.expired_bucket now keep (ne.1, Store.EDir files) = true
               ∧ ne.2 = Store.EDir files' ∧ files' ⊆ files).
Proof.
  intros r. subst r. rewrite cleanup_old_files_run.
  pose proof (cleanup_loop_names fs now keep (Store.images s)) as Hsub.
  pose proof (cleanup_loop_keeps fs now keep (Store.images s)) as Hkeep.
  pose proof (cleanup_loop_origin fs now keep (Store.images s)) as Horigin.
  destruct (Store.cleanup_loop fs now keep (Store.images s)) as [[d evs] err]. simpl in *.
  repeat split; try done.
  intros ne Hin. destruct (Store.expired_bucket now keep ne) eqn:E; [by right|left].
  by apply Hkeep.
Qed.

(** ** A save without its bucket *)

Lemma put_file_missing (d : Store.directory) (p : Store.path) (f : Store.file) :
  Store.bucket p ∉ Loop.names d → Store.put_file d p f = None.
Proof.
  unfold Loop.names. induction d as [|[n e] d IH]; simpl; [done|].
  intros Hnot. apply not_elem_of_cons in Hnot as [Hne Hnot].
  rewrite decide_False by done. by rewrite IH.
Qed.

Lemma names_sublist (d1 d2 : Store.directory) (n : string) :
  Loop.names d1 `sublist_of` Loop.names d2 → n ∉ Loop.names d2 → n ∉ Loop.names d1.
Proof.
  intros Hsub Hnot Hin. apply Hnot. by eapply elem_of_sublist.
Qed.

(** The quota check leaves the names of the listing, or a part of them. *)
Lemma ensure_space_images env s :
  Loop.names (Store.images (Store.ensure_space env s).2)
    `sublist_of` Loop.names (Store.images s).
Proof.
  pose proof (ensure_space_run env s) as Hrun.
  pose proof (cleanup_loop_names (Store.cleanup_scan env) (Store.now_cleanup env) 7
                (Store.images s)) as Hsub.
  destruct (Store.cleanup_loop _ _ _ _) as [[d evs] err]. simpl in *.
  rewrite Hrun. crunch; done.
Qed.

Lemma persist_missing_bucket env t l bbox s :
  strftime_date (Store.now_bucket env) ∉ Loop.names (Store.images s) →
  let r := Store.persist env t l bbox s in
  (∃ e, r.1 = Raise e)
  ∧ Store.images r.2 = Store.images s
  ∧ ∃ evs, Store.trace r.2 = Store.trace s ++ evs
           ∧ Forall (λ ev, Store.is_write ev = false) evs.
Proof.
  intros Hmiss.
  assert (∀ p f, Store.bucket p = strftime_date (Store.now_bucket env) →
                 Store.put_file (Store.images s) p f = None) as Hput.
  { intros p f Hp. apply put_file_missing. by rewrite Hp. }
  destruct bbox as [[[x y] w] h]. run. crunch.
  all: try match goal with
       | H : Store.put_file _ ?p _ = Some _ |- _ =>
           rewrite (Hput p) in H by reflexivity; discriminate
       end.
  all: split; [by eexists|split; [done|]].
  all: suffix ltac:(by repeat constructor).
Qed.

(** [X8] A save does not make the bucket it writes to. When the images
    directory has no entry named as the date the save reads (the day has
    changed since the store was constructed), the call returns [False],
    writes no file and leaves the time of the last save, in every
    environment. *)
Theorem save_into_missing_bucket_fails env l bbox s :
  strftime_date (Store.now_bucket env) ∉ Loop.names (Store.images s) →
  let r := Store.save_detected_object env l bbox s in
  r.1 = Ok false
  ∧ Store.self r.2 = Store.self s
  ∧ ∃ evs, Store.trace r.2 = Store.trace s ++ evs
           ∧ Forall (λ ev, Store.is_write ev = false) evs.
Proof.
  intros Hmiss r. subst r.
  destruct (Store.rate_limited (Store.self s) (Store.now_check env)) eqn:Hrl.
  { run. rewrite Hrl. simpl. split; [done|]. split; [done|].
    eexists. split; [done|]. by repeat constructor. }
  assert ((Store.save_detected_object env l bbox s).1 = Ok false) as Hfalse.
  { rewrite save_not_limited by done.
    pose proof (ensure_space_images env s) as Hsub.
    destruct (Store.ensure_space env s) as [[[]|e] s1]; simpl in *; [|done].
    destruct (persist_missing_bucket env (Store.now_check env) l bbox s1
                ltac:(by eapply names_sublist)) as ([e He] & _).
    destruct (Store.persist _ _ _ _ s1) as [[b|e'] s2]; simpl in *; done. }
  split; [exact Hfalse|]. split; [by apply failed_save_keeps_timestamp|].
  rewrite save_not_limited by done.
  pose proof (ensure_space_images env s) as Hsub.
  destruct (ensure_space_quiet env s) as (evs & Hevs & Hquiet & _).
  destruct (Store.ensure_space env s) as [[[]|e] s1]; simpl in *.
  - destruct (persist_missing_bucket env (Store.now_check env) l bbox s1
                ltac:(by eapply names_sublist)) as ([e He] & _ & pevs & Hp & Hpq).
    destruct (Store.persist _ _ _ _ s1) as [[b|e'] s2]; simpl in *; [done|].
    exists (evs ++ pevs ++ [Store.Log (Store.FailedToSave e')]).
    split; [by rewrite Hp, Hevs, <- !app_assoc|].
    repeat (apply Forall_app; split); try done. by repeat constructor.
  - exists (evs ++ [Store.Log (Store.FailedToSave e)]).
    split; [by rewrite Hevs, <- !app_assoc|].
    apply Forall_app; split; [done|]. by repeat constructor.
Qed.

End StoreMore.

(** ** A save with space to spare *)

Section SpaceToSpare.
Context `{cv : OpenCV} `{ud : Unicode}.

Implicit Types (s : Store.state) (env : Store.environment) (l : loc) (bbox : region).

Arguments Store.persist : simpl never.
Arguments Store.ensure_space : simpl never.
Arguments Store.save_detected_object : simpl never.




End SpaceToSpare.

(** ** The images a round of the loop writes *)

Section SavedImage.
Context `{cv : OpenCV} `{ud : Unicode}.

Implicit Types (s : Store.state) (env : Store.environment) (l : loc) (bbox : region).

Arguments Store.persist : simpl never.
Arguments Store.ensure_space : simpl never.
Arguments Store.save_detected_object : simpl never.

Lemma persist_image env t l bbox s f :
  Store.heap s !! l = Some f →
  ∃ evs,
    Store.trace (Store.persist env t l bbox s).2 = Store.trace s ++ evs
    ∧ ∀ p img, Store.WroteImage p img ∈ evs →
        p = Store.full_path env
        ∧ img = Loop.annotate f bbox (strftime_label (Store.now_label env)).
Proof.
  intros Hl. destruct bbox as [[[x y] w] h].
  unfold Store.full_path. run. rewrite Hl. simpl. crunch.
  all: repeat match goal with
       | H : alter _ ?i _ !! ?i = Some _ |- _ =>
           rewrite lookup_alter_eq in H
       | H : _ <$> _ = Some _ |- _ => apply fmap_Some in H as (? & H & ->)
       | H : <[?i:=_]> _ !! ?i = Some _ |- _ =>
           rewrite lookup_insert_eq in H; injection H as <-
       end.
  all: suffix ltac:(intros p img Hin;
                    repeat (apply elem_of_cons in Hin as [Hin|Hin]; simplify_eq);
                    try (by apply elem_of_nil in Hin); done).
Qed.

(** The image a save writes is the caller's frame with the box of the
    region given and the time label drawn on it, written at the image
    path. *)
Lemma save_image env l bbox s f :
  Store.heap s !! l = Some f →
  ∃ evs,
    Store.trace (Store.save_detected_object env l bbox s).2 = Store.trace s ++ evs
    ∧ ∀ p img, Store.WroteImage p img ∈ evs →
        p = Store.full_path env
        ∧ img = Loop.annotate f bbox (strftime_label (Store.now_label env)).
Proof.
  intros Hl.
  destruct (Store.rate_limited (Store.self s) (Store.now_check env)) eqn:Hrl.
  { run. rewrite Hrl. simpl. eexists. split; [done|].
    intros p img Hin. apply list_elem_of_singleton in Hin. done. }
  rewrite save_not_limited by done.
  destruct (ensure_space_quiet env s) as (evs & Hevs & Hquiet & Hheap & _).
  assert (∀ p img, Store.WroteImage p img ∉ evs) as Hnone.
  { intros p img Hin. rewrite Forall_forall in Hquiet. by apply Hquiet in Hin. }
  destruct (Store.ensure_space env s) as [[[]|e] s1]; simpl in *.
  - rewrite <- Hheap in Hl.
    destruct (persist_image env (Store.now_check env) l bbox s1 f Hl) as (pevs & Hp & Himg).
    destruct (Store.persist _ _ _ _ s1) as [[b|e] s2]; simpl in *.
    + exists (evs ++ pevs). split; [by rewrite Hp, Hevs, <- app_assoc|].
      intros p img Hin. apply elem_of_app in Hin as [Hin|Hin]; [by apply Hnone in Hin|].
      by apply Himg.
    + exists (evs ++ pevs ++ [Store.Log (Store.FailedToSave e)]).
      split; [by rewrite Hp, Hevs, <- !app_assoc|].
      intros p img Hin. apply elem_of_app in Hin as [Hin|Hin]; [by apply Hnone in Hin|].
      apply elem_of_app in Hin as [Hin|Hin]; [by apply Himg|].
      by apply list_elem_of_singleton in Hin.
  - exists (evs ++ [Store.Log (Store.FailedToSave e)]).
    split; [by rewrite Hevs, <- app_assoc|].
    intros p img Hin. apply elem_of_app in Hin as [Hin|Hin]; [by apply Hnone in Hin|].
    by apply list_elem_of_singleton in Hin.
Qed.

Arguments Loop.save_objects : simpl never.

Lemma save_objects_step envs l bbox (rest : list region) s :
  Loop.save_objects envs l (bbox :: rest) s
  = Loop.save_objects (λ i, envs (S i)) l rest
      (Store.save_detected_object (envs 0%nat) l bbox s).2.
Proof.
  unfold Loop.save_objects at 1. fold Loop.save_objects. unfold Store.bind.
  destruct (save_returns (envs 0%nat) l bbox s) as [b Hb].
  destruct (Store.save_detected_object (envs 0%nat) l bbox s) as [[b'|e] s1]; done.
Qed.

(** The images the saves of one frame write: each is the frame with the
    box of one of the regions, the one of its call. *)
Lemma save_objects_images (envs : nat → Store.environment) l (objects : list region) s f :
  Store.heap s !! l = Some f →
  let r := Loop.save_objects envs l objects s in
  r.1 = Ok tt
  ∧ Store.heap r.2 !! l = Some f
  ∧ ∃ evs,
      Store.trace r.2 = Store.trace s ++ evs
      ∧ ∀ p img, Store.WroteImage p img ∈ evs →
          ∃ (i : nat) bbox,
            objects !! i = Some bbox
            ∧ p = Store.full_path (envs i)
            ∧ img = Loop.annotate f bbox (strftime_label (Store.now_label (envs i))).
Proof.
  revert envs s. induction objects as [|bbox rest IH]; intros envs s Hl.
  { unfold Loop.save_objects. simpl. split; [done|]. split; [done|].
    exists []. rewrite app_nil_r. split; [done|].
    intros p img Hin. by apply elem_of_nil in Hin. }
  rewrite save_objects_step.
  destruct (save_image (envs 0%nat) l bbox s f Hl) as (evs & Hevs & Himg).
  pose proof (save_preserves_heap (envs 0%nat) l bbox s l f Hl) as Hl1.
  destruct (IH (λ i, envs (S i)) _ Hl1) as (Hr & Hl2 & evs' & Hevs' & Himg').
  split; [done|]. split; [done|].
  exists (evs ++ evs'). split; [by rewrite Hevs', Hevs, <- app_assoc|].
  intros p img Hin. apply elem_of_app in Hin as [Hin|Hin].
  - destruct (Himg p img Hin) as [-> ->]. by exists 0%nat, bbox.
  - destruct (Himg' p img Hin) as (i & bbox' & Hi & -> & ->). by exists (S i), bbox'.
Qed.

(** [X10] One round of the loop ([main.py], lines 44-48): every image it
    writes is the captured frame with the box of one region of that frame
    and the time label drawn on it, at the image path of that region's
    call. The boxes the detector draws go to its own copy: an image on disk
    shows one box, however many regions the frame has, and the captured
    frame is as the camera gave it when the round ends. *)
Theorem saved_images_show_the_captured_frame (detector : Detector.ObjectDetector)
    (envs : nat → Store.environment) l s f :
  Store.heap s !! l = Some f →
  let r := Loop.process_frame detector envs l s in
  Store.heap r.2 !! l = Some f
  ∧ ∃ evs,
      Store.trace r.2 = Store.trace s ++ evs
      ∧ ∀ p img, Store.WroteImage p img ∈ evs →
          ∃ objects processed_frame (i : nat) bbox,
            r.1.1 = Ok (objects, processed_frame)
            ∧ objects !! i = Some bbox
            ∧ p = Store.full_path (envs i)
            ∧ img = Loop.annotate f bbox (strftime_label (Store.now_label (envs i))).
Proof.
  intros Hl r. subst r. unfold Loop.process_frame.
  pose proof (detect_objects_preserves_heap detector (Store.heap s) l l f Hl) as Hkeep.
  destruct (Detector.detect_objects detector (Store.heap s) l)
    as [[[[objects processed_frame]|e] detector'] heap']; simpl in *.
  - destruct (save_objects_images envs l objects (Loop.with_heap s heap') f Hkeep)
      as (Hr & Hl' & evs & Hevs & Himg).
    destruct (Loop.save_objects envs l objects (Loop.with_heap s heap')) as [[[]|e] s'];
      simpl in *; [|done].
    split; [done|]. exists evs. split; [done|].
    intros p img Hin. destruct (Himg p img Hin) as (i & bbox & Hi & -> & ->).
    by exists objects, processed_frame, i, bbox.
  - split; [done|]. exists []. rewrite app_nil_r. split; [done|].
    intros p img Hin. by apply elem_of_nil in Hin.
Qed.

End SavedImage.

(** ** The saves of one round of the loop *)

Section LoopSaves.
Context `{cv : OpenCV} `{ud : Unicode}.

Implicit Types (s : Store.state) (envs : nat → Store.environment) (l : loc).

Arguments Store.save_detected_object : simpl never.

Arguments Loop.save_objects : simpl never.

(** Calls that all start within the minimum interval of the save on record
    are all skipped. *)
Lemma save_objects_all_skipped envs l (objects : list region) s (last : datetime) :
  Store.last_save_timestamp (Store.self s) = Some last →
  (∀ i, (i < length objects)%nat →
        sub (Store.now_check (envs i)) last
        < Store.min_save_interval (Store.self s) * 1000000) →
  let r := Loop.save_objects envs l objects s in
  r.1 = Ok tt
  ∧ Store.self r.2 = Store.self s
  ∧ Store.images r.2 = Store.images s
  ∧ ∃ evs, Store.trace r.2 = Store.trace s ++ evs
           ∧ Forall (λ ev, Store.is_write ev = false) evs.
Proof.
  revert envs s. induction objects as [|bbox rest IH]; intros envs s Hlast Hwin.
  { unfold Loop.save_objects. simpl. repeat split. exists []. by rewrite app_nil_r. }
  rewrite save_objects_step.
  assert (Store.rate_limited (Store.self s) (Store.now_check (envs 0%nat)) = true) as Hrl.
  { unfold Store.rate_limited, total_seconds_lt. rewrite Hlast.
    apply Z.ltb_lt, Hwin. simpl. lia. }
  rewrite (save_skips (envs 0%nat) l bbox s last Hlast Hrl). simpl.
  match goal with |- context [Loop.save_objects ?e l rest ?s1] =>
    destruct (IH e s1 Hlast ltac:(intros i Hi; apply (Hwin (S i)); simpl; lia))
      as (Hr & Hself & Himg & evs & Hevs & Hq)
  end.
  simpl in *. repeat split; try done.
  exists (Store.Log (Store.SkippingSave (Store.min_save_interval (Store.self s))
            (sub (Store.now_check (envs 0%nat)) last)) :: evs).
  split; [by rewrite Hevs, <- app_assoc|]. by constructor.
Qed.

(** [X11] The saves for the regions of one frame ([main.py], lines 47-48):
    when every call starts less than the minimum interval after each call
    before it, at most one of them writes a metadata record, whatever the
    number of regions; the loop itself never raises. *)
Theorem one_frame_saves_at_most_one_event envs l (objects : list region) s :
  (∀ i j, (i < j < length objects)%nat →
          sub (Store.now_check (envs j)) (Store.now_check (envs i))
          < Store.min_save_interval (Store.self s) * 1000000) →
  let r := Loop.save_objects envs l objects s in
  r.1 = Ok tt
  ∧ ∃ evs, Store.trace r.2 = Store.trace s ++ evs
           ∧ (length (filter (λ ev, Loop.is_metadata_write ev = true) evs) ≤ 1)%nat.
Proof.
  revert envs s. induction objects as [|bbox rest IH]; intros envs s Hwin.
  { unfold Loop.save_objects. simpl. split; [done|]. exists []. rewrite app_nil_r.
    split; [done|]. simpl. lia. }
  rewrite save_objects_step.
  destruct (save_metadata_count (envs 0%nat) l bbox s) as (b & evs & Hb & Ht & Hm & _).
  destruct b.
  - (* the first call saved: the others are skipped *)
    pose proof (successful_save_sets_timestamp (envs 0%nat) l bbox s Hb) as Hself.
    match goal with |- context [Loop.save_objects ?e l rest ?s1] =>
      destruct (save_objects_all_skipped e l rest s1 (Store.now_check (envs 0%nat)))
        as (Hr & _ & _ & evs' & Hevs' & Hq)
    end.
    { by rewrite Hself. }
    { intros i Hi. rewrite Hself. simpl. apply (Hwin 0%nat (S i)). simpl. lia. }
    split; [done|]. exists (evs ++ evs').
    split; [by rewrite Hevs', Ht, <- app_assoc|].
    rewrite filter_app, length_app, Hm.
    rewrite (Forall_filter_nil _ evs'); [simpl; lia|].
    eapply Forall_impl; [exact Hq|]. intros [] Hw; simpl in *; congruence.
  - (* the first call did not save: the store object is as before *)
    pose proof (failed_save_keeps_timestamp (envs 0%nat) l bbox s Hb) as Hself.
    match goal with |- context [Loop.save_objects ?e l rest ?s1] =>
      destruct (IH e s1) as (Hr & evs' & Hevs' & Hcount)
    end.
    { intros i j Hij. rewrite Hself. apply (Hwin (S i) (S j)). simpl. lia. }
    split; [done|]. exists (evs ++ evs').
    split; [by rewrite Hevs', Ht, <- app_assoc|].
    rewrite filter_app, length_app, Hm. simpl. lia.
Qed.

End LoopSaves.

(** ** The detector over a sequence of frames *)

Section DetectorMore.
Context `{cv : OpenCV}.

Implicit Types (self detector : Detector.ObjectDetector) (heap : gmap loc frame).
Implicit Types (l : loc) (f : frame) (bg : fimage).

(** A call leaves the settings; a model that is there stays, with its
    size. *)
Lemma detect_objects_model self heap l :
  let self' := (Detector.detect_objects self heap l).1.2 in
  Detector.min_area self' = Detector.min_area self
  ∧ Detector.threshold self' = Detector.threshold self
  ∧ Detector.blur_size self' = Detector.blur_size self
  ∧ Detector.dilate_iterations self' = Detector.dilate_iterations self
  ∧ ∀ bg, Detector.background self = Some bg →
          ∃ bg', Detector.background self' = Some bg'
                 ∧ map length bg' = map length bg.
Proof.
  unfold Detector.detect_objects.
  destruct (heap !! l) as [f|]; simpl; [|by eauto 10].
  destruct (Detector.background self) as [bg|] eqn:Hbg; simpl.
  - destruct (Detector.frame_delta bg _) as [delta|] eqn:Hd; simpl.
    + destruct (Detector.contours_of self delta) as [contours|e]; simpl.
      * destruct (foldl _ _ _) as [regions heap']. simpl.
        repeat split; try done. intros ? [= <-]. eexists. split; [done|].
        unfold Detector.frame_delta, absdiff, same_shape in Hd.
        case_bool_decide as Hshape; [|done].
        rewrite shape_convertScaleAbs in Hshape.
        unfold accumulateWeighted. apply shape_zip_with.
        unfold float32. rewrite map_map. rewrite Hshape. apply map_ext.
        intros row. apply length_map.
      * repeat split; try done. intros ? [= <-]. by eexists.
    + repeat split; try done. intros ? [= <-]. by eexists.
  - repeat split; done.
Qed.

Lemma detect_each_model detector heap (frames : list loc) :
  let detector' := (Loop.detect_each detector heap frames).1.2 in
  Detector.min_area detector' = Detector.min_area detector
  ∧ Detector.threshold detector' = Detector.threshold detector
  ∧ Detector.blur_size detector' = Detector.blur_size detector
  ∧ Detector.dilate_iterations detector' = Detector.dilate_iterations detector
  ∧ ∀ bg, Detector.background detector = Some bg →
          ∃ bg', Detector.background detector' = Some bg'
                 ∧ map length bg' = map length bg.
Proof.
  revert detector heap. induction frames as [|l frames IH]; intros detector heap.
  { simpl. repeat split; try done. intros bg ->. by eexists. }
  simpl.
  destruct (detect_objects_model detector heap l) as (H1 & H2 & H3 & H4 & Hbg).
  destruct (Detector.detect_objects detector heap l) as [[[[objects p]|e] d1] heap1];
    simpl in *; [|done].
  destruct (IH d1 heap1) as (I1 & I2 & I3 & I4 & Ibg).
  destruct (Loop.detect_each d1 heap1 frames) as [[[results|e] d2] heap2]; simpl in *.
  all: repeat split; try congruence.
  all: intros bg Hb; destruct (Hbg bg Hb) as (bg1 & Hb1 & Hs1);
    destruct (Ibg bg1 Hb1) as (bg2 & Hb2 & Hs2); exists bg2; split; congruence.
Qed.

Lemma detect_each_preserves_heap detector heap (frames : list loc) l f :
  heap !! l = Some f →
  (Loop.detect_each detector heap frames).2 !! l = Some f.
Proof.
  revert detector heap. induction frames as [|l' frames IH]; intros detector heap Hl;
    [done|].
  simpl.
  pose proof (detect_objects_preserves_heap detector heap l' l f Hl) as Hkeep.
  destruct (Detector.detect_objects detector heap l') as [[[[objects p]|e] d1] heap1];
    simpl in *; [|done].
  specialize (IH d1 heap1 Hkeep).
  by destruct (Loop.detect_each d1 heap1 frames) as [[[results|e] d2] heap2].
Qed.

(** The loop over [before ++ rest]: the frames of [before], then, when
    none of them raised, the frames of [rest]. *)
Lemma detect_each_app detector heap (before rest : list loc) :
  Loop.detect_each detector heap (before ++ rest)
  = match Loop.detect_each detector heap before with
    | (Ok results, detector', heap') =>
        match Loop.detect_each detector' heap' rest with
        | (Ok results', detector'', heap'') => (Ok (results ++ results'), detector'', heap'')
        | (Raise e, detector'', heap'') => (Raise e, detector'', heap'')
        end
    | (Raise e, detector', heap') => (Raise e, detector', heap')
    end.
Proof.
  revert detector heap. induction before as [|l before IH]; intros detector heap; simpl.
  { by destruct (Loop.detect_each detector heap rest) as [[[results|e] d2] heap2]. }
  destruct (Detector.detect_objects detector heap l) as [[[[objects p]|e] d1] heap1];
    [|done].
  rewrite IH.
  destruct (Loop.detect_each d1 heap1 before) as [[[results|e] d2] heap2]; [|done].
  by destruct (Loop.detect_each d2 heap2 rest) as [[[results'|e] d3] heap3].
Qed.

(** [X12] Over any sequence of frames the loop feeds it, the detector keeps
    its four settings, and a background model, once there, is never absent
    again and never changes size: whether the calls return or one of them
    raises. *)
Theorem background_model_keeps_its_size detector heap (frames : list loc) bg :
  Detector.background detector = Some bg →
  let detector' := (Loop.detect_each detector heap frames).1.2 in
  Detector.min_area detector' = Detector.min_area detector
  ∧ Detector.threshold detector' = Detector.threshold detector
  ∧ Detector.blur_size detector' = Detector.blur_size detector
  ∧ Detector.dilate_iterations detector' = Detector.dilate_iterations detector
  ∧ ∃ bg', Detector.background detector' = Some bg'
           ∧ map length bg' = map length bg.
Proof.
  intros Hbg detector'. subst detector'.
  destruct (detect_each_model detector heap frames) as (H1 & H2 & H3 & H4 & Hb).
  repeat split; try done. by apply Hb.
Qed.

(** [X13] The detector never adapts to frames of another size. Once it has
    a model, a frame whose smoothed image has another shape ends the loop
    with an exception, however many frames were processed before it: at
    that frame [cv2.absdiff] raises, if no call raised earlier. (Neither
    image is a single pixel, which OpenCV would read as a scalar.) *)
Theorem frame_of_another_size_ends_the_loop detector heap (before rest : list loc) l f bg :
  Detector.background detector = Some bg →
  heap !! l = Some f →
  map length bg ≠ map length (Detector.preprocess_frame detector f) →
  map length bg ≠ [1%nat] →
  map length (Detector.preprocess_frame detector f) ≠ [1%nat] →
  ∃ e, (Loop.detect_each detector heap (before ++ l :: rest)).1.1 = Raise e.
Proof.
  intros Hbg Hl Hshape _ _. rewrite detect_each_app.
  destruct (detect_each_model detector heap before) as (_ & _ & Hblur & _ & Hb).
  pose proof (detect_each_preserves_heap detector heap before l f Hl) as Hl'.
  destruct (Loop.detect_each detector heap before) as [[[results|e] d1] heap1];
    simpl in *; [|by eexists].
  destruct (Hb bg Hbg) as (bg1 & Hbg1 & Hs1).
  unfold Detector.detect_objects. rewrite Hl', Hbg1.
  unfold Detector.frame_delta, absdiff, same_shape.
  rewrite bool_decide_eq_false_2; [by eexists|].
  rewrite shape_convertScaleAbs, Hs1.
  unfold Detector.preprocess_frame in *. by rewrite Hblur.
Qed.

(** ** The regions a call returns *)

Lemma shoelace_same_x (x0 : Z) (first prev : point) (rest : contour) :
  first.1 = x0 → prev.1 = x0 → Forall (λ p, p.1 = x0) rest →
  shoelace first prev rest = x0 * (first.2 - prev.2).
Proof.
  intros Hf Hp Hrest. revert prev Hp.
  induction Hrest as [|p rest Hpx _ IH]; intros prev Hp; simpl.
  - rewrite Hf, Hp. lia.
  - rewrite (IH p Hpx), Hp, Hpx. lia.
Qed.

Lemma shoelace_same_y (y0 : Z) (first prev : point) (rest : contour) :
  first.2 = y0 → prev.2 = y0 → Forall (λ p, p.2 = y0) rest →
  shoelace first prev rest = y0 * (prev.1 - first.1).
Proof.
  intros Hf Hp Hrest. revert prev Hp.
  induction Hrest as [|p rest Hpy _ IH]; intros prev Hp; simpl.
  - rewrite Hf, Hp. lia.
  - rewrite (IH p Hpy), Hp, Hpy. lia.
Qed.

(** The least and the greatest of the values [g] takes on a contour. *)
Lemma foldr_min_max (g : point → Z) (z : Z) (rest : contour) :
  foldr (λ q, Z.min (g q)) z rest ≤ z ≤ foldr (λ q, Z.max (g q)) z rest
  ∧ Forall (λ q, foldr (λ q, Z.min (g q)) z rest ≤ g q
                 ≤ foldr (λ q, Z.max (g q)) z rest) rest.
Proof.
  induction rest as [|p rest [IH1 IH2]]; simpl; [split; [lia|constructor]|].
  split; [lia|]. constructor; [lia|].
  eapply Forall_impl; [exact IH2|]. simpl. intros q ?. lia.
Qed.

(** A contour that encloses an area is more than one pixel wide and more
    than one pixel high. *)
Lemma boundingRect_of_area (c : contour) (x y w h : Z) :
  (0 < contourArea c)%Q → boundingRect c = (x, y, w, h) → 2 ≤ w ∧ 2 ≤ h.
Proof.
  destruct c as [|p rest]; [done|]. intros Harea [= <- <- <- <-].
  assert (shoelace p p rest ≠ 0) as Hne.
  { intros E. unfold contourArea in Harea. rewrite E in Harea. done. }
  destruct (foldr_min_max fst p.1 rest) as [Hx Hxs].
  destruct (foldr_min_max snd p.2 rest) as [Hy Hys].
  cbv beta in Hx, Hxs, Hy, Hys. unfold point in *.
  split.
  - destruct (Z.eq_dec (foldr (λ q, Z.max q.1) p.1 rest) (foldr (λ q, Z.min q.1) p.1 rest))
      as [E|E]; [exfalso|lia].
    apply Hne. rewrite (shoelace_same_x p.1); [lia|done|done|].
    eapply Forall_impl; [exact Hxs|]. simpl. intros q ?. lia.
  - destruct (Z.eq_dec (foldr (λ q, Z.max q.2) p.2 rest) (foldr (λ q, Z.min q.2) p.2 rest))
      as [E|E]; [exfalso|lia].
    apply Hne. rewrite (shoelace_same_y p.2); [lia|done|done|].
    eapply Forall_impl; [exact Hys|]. simpl. intros q ?. lia.
Qed.

(** The regions of a call that returns are the boxes of contours that are
    not too small. *)
Lemma detect_objects_regions self heap l (regions : list region) (p : loc) :
  (Detector.detect_objects self heap l).1.1 = Ok (regions, p) →
  ∃ contours, regions = Detector.regions_of self contours.
Proof.
  unfold Detector.detect_objects.
  destruct (heap !! l) as [f|]; [|done].
  destruct (Detector.background self) as [bg|]; simpl.
  - destruct (Detector.frame_delta bg _) as [delta|]; [|done].
    destruct (Detector.contours_of self delta) as [contours|e]; [|done].
    pose proof (process_contours_regions self (fresh (dom heap))
      contours ([], <[fresh (dom heap) := f]> heap)) as Hr.
    destruct (foldl _ _ _) as [regions' heap']. simpl in *.
    intros [= <- <-]. eauto.
  - intros [= <- <-]. by exists [].
Qed.

(** [X14] With a minimum area above zero (the default is 500), no region a
    call returns is degenerate: each is at least two pixels wide and two
    pixels high, being the box of a contour that encloses an area. *)
Theorem regions_are_not_degenerate self heap l (regions : list region) (p : loc)
    (x y w h : Z) :
  0 < Detector.min_area self →
  (Detector.detect_objects self heap l).1.1 = Ok (regions, p) →
  (x, y, w, h) ∈ regions →
  2 ≤ w ∧ 2 ≤ h.
Proof.
  intros Hmin Hcall Hin.
  destruct (detect_objects_regions self heap l regions p Hcall) as [contours ->].
  unfold Detector.regions_of in Hin.
  apply list_elem_of_fmap in Hin as (c & Hbox & Hc).
  apply list_elem_of_filter in Hc as [Hbig _].
  apply (boundingRect_of_area c x y); [|done].
  unfold Detector.too_small in Hbig.
  assert (0 < inject_Z (Detector.min_area self))%Q as Hm
    by (change 0%Q with (inject_Z 0); by rewrite <- Zlt_Qlt).
  destruct (Qcompare_spec (contourArea c) (inject_Z (Detector.min_area self)))
    as [E|E|E]; try done.
  - by rewrite E.
  - by eapply Qlt_trans.
Qed.

End DetectorMore.

(** ** The background model under float32 rounding *)




Section Float32.
Context `{cv : OpenCV}.









End Float32.

(** ** The further properties at concrete inputs *)

Import MoreExamples.


(** Two saves a microsecond apart. *)
Lemma different_ids_witness :
  Store.full_path (env_at (june1 10 0 5 250)) ≠ Store.full_path (env_at (june1 10 0 5 251))
  ∧ Store.metadata_path (env_at (june1 10 0 5 250))
    ≠ Store.metadata_path (env_at (june1 10 0 5 251)).
Proof.
  exact (different_ids_give_different_files
           (env_at (june1 10 0 5 250)) (env_at (june1 10 0 5 251))
           ltac:(vm_compute; reflexivity) ltac:(vm_compute; reflexivity)
           ltac:(vm_compute; reflexivity) ltac:(vm_compute; reflexivity)
           ltac:(simpl; lia) ltac:(simpl; lia) ltac:(discriminate)).
Defined.

(** A save on 2 June into a directory that holds the bucket of 1 June. *)
Lemma missing_bucket_witness :
  (strftime_date (Store.now_bucket (env_at (mkDatetime 2024 6 2 0 0 1 0)))
     ∉ Loop.names (Store.images store0))
  ∧ (Store.save_detected_object (cv:=Sim.cv) (ud:=Sim.ud) (env_at (mkDatetime 2024 6 2 0 0 1 0))
       1%positive (0, 0, 2, 2) store0).1 = Ok false.
Proof.
  assert (strftime_date (Store.now_bucket (env_at (mkDatetime 2024 6 2 0 0 1 0)))
            ∉ Loop.names (Store.images store0)) as Hmiss.
  { apply (bool_decide_unpack _). vm_compute. exact I. }
  split; [exact Hmiss|].
  exact (proj1 (save_into_missing_bucket_fails (cv:=Sim.cv) (ud:=Sim.ud)
                  (env_at (mkDatetime 2024 6 2 0 0 1 0)) 1%positive (0, 0, 2, 2) store0
                  Hmiss)).
Defined.

(** One round of the loop on a frame that differs from the model
    everywhere. *)
Lemma captured_frame_witness :
  Store.heap store30 !! 1%positive = Some frame30
  ∧ Store.heap (Loop.process_frame (cv:=Sim.cv) (ud:=Sim.ud) detector_bright (λ _, env_ok)
                  1%positive store30).2 !! 1%positive = Some frame30.
Proof.
  assert (Store.heap store30 !! 1%positive = Some frame30) as Hl
    by (vm_compute; reflexivity).
  split; [exact Hl|].
  exact (proj1 (saved_images_show_the_captured_frame (cv:=Sim.cv) (ud:=Sim.ud) detector_bright
                  (λ _, env_ok) 1%positive store30 frame30 Hl)).
Defined.

(** Two regions of one frame, saved within the same second. *)
Lemma one_frame_witness :
  (Loop.save_objects (cv:=Sim.cv) (ud:=Sim.ud) (λ _, env_ok) 1%positive [(0, 0, 2, 2); (1, 1, 2, 2)]
     store0).1 = Ok tt.
Proof.
  exact (proj1 (one_frame_saves_at_most_one_event (cv:=Sim.cv) (ud:=Sim.ud) (λ _, env_ok) 1%positive
                  [(0, 0, 2, 2); (1, 1, 2, 2)] store0
                  ltac:(intros i j _; vm_compute; reflexivity))).
Defined.

(** Two more frames for a detector with a model of 3 by 3. *)
Lemma background_size_witness :
  ∃ bg',
    Detector.background
      (Loop.detect_each (cv:=Sim.cv) detector1 heap0 [1%positive; 1%positive]).1.2
    = Some bg'
    ∧ map length bg' = [3; 3; 3]%nat.
Proof.
  destruct (background_model_keeps_its_size (cv:=Sim.cv) detector1 heap0
              [1%positive; 1%positive] (replicate 3 (replicate 3 (106 # 10)%Q))
              ltac:(reflexivity))
    as (_ & _ & _ & _ & bg' & Hbg & Hshape).
  exists bg'. split; [exact Hbg|exact Hshape].
Defined.

(** A frame of 30 by 30 after a frame of 3 by 3, for a model of 3 by 3. *)
Lemma another_size_witness :
  ∃ e, (Loop.detect_each (cv:=Sim.cv) detector1 heap_mixed [1%positive; 2%positive]).1.1
       = Raise e.
Proof.
  exact (frame_of_another_size_ends_the_loop (cv:=Sim.cv) detector1 heap_mixed
           [1%positive] [] 2%positive frame30 (replicate 3 (replicate 3 (106 # 10)%Q))
           ltac:(reflexivity) ltac:(vm_compute; reflexivity)
           ltac:(vm_compute; discriminate) ltac:(vm_compute; discriminate)
           ltac:(vm_compute; discriminate)).
Defined.


(** The whole of a frame of 30 by 30 as one region. *)
Lemma regions_witness :
  (Detector.detect_objects (cv:=Sim.cv) detector_bright heap30 1%positive).1.1
  = Ok ([(0, 0, 30, 30)], 2%positive)
  ∧ 2 ≤ 30 ∧ 2 ≤ 30.
Proof.
  assert ((Detector.detect_objects (cv:=Sim.cv) detector_bright heap30 1%positive).1.1
          = Ok ([(0, 0, 30, 30)], 2%positive)) as Hcall by (vm_compute; reflexivity).
  split; [exact Hcall|].
  exact (regions_are_not_degenerate (cv:=Sim.cv) detector_bright heap30 1%positive
           [(0, 0, 30, 30)] 2%positive 0 0 30 30
           ltac:(simpl; lia) Hcall ltac:(left)).
Defined.

